(** * DeepT: batch collation (model.py)

    A shallow embedding of [PadFunction], of the loss wiring of
    [BartForMaskedLM.training_step] / [validation_step] and of the two
    data loaders from [model.py], followed by their properties.

    Conventions.
    - A token id is an integer, held as [Z].  The collator only stores and
      copies token ids, it never computes with them.
    - Lengths, positions and tensor dimensions are [nat].
    - A 2-D tensor carries its shape explicitly, as [torch] does: a tensor
      with zero rows still has a width, and one of zero width still has
      rows.
    - Python exceptions are results [Raise e]; a normal return is [Ok v]. *)

From stdpp Require Import base tactics option list numbers strings.
From Stdlib Require Import ZArith Lia.

Local Open Scope Z_scope.
Local Open Scope nat_scope.

(** ** Exceptions *)

Inductive exn : Set :=
| ValueError      (* max() of an empty list, tuple unpacking of a wrong arity *)
| IndexError      (* list or tensor index out of range *)
| RuntimeError.   (* torch: shapes of source and destination do not match *)

Inductive result (A : Type) : Type :=
| Ok (a : A)
| Raise (e : exn).
Arguments Ok {A} a.
Arguments Raise {A} e.

#[global] Instance result_ret : MRet result := fun _ a => Ok a.
#[global] Instance result_bind : MBind result := fun _ _ k m =>
  match m with
  | Ok a => k a
  | Raise e => Raise e
  end.

Definition returns {A} (m : result A) : Prop := ∃ a, m = Ok a.

(** ** Python built-ins used by the collator *)

Module Py.

(** [max(xs)] on a list of lengths: raises [ValueError] on the empty list,
    otherwise scans left to right keeping the largest element. *)
Definition max (xs : list nat) : result nat :=
  match xs with
  | [] => Raise ValueError
  | x :: rest => Ok (foldl Nat.max x rest)
  end.

(** [enumerate(xs, start)]. *)
Fixpoint enumerate_from {A} (start : nat) (xs : list A) : list (nat * A) :=
  match xs with
  | [] => []
  | x :: rest => (start, x) :: enumerate_from (S start) rest
  end.

Definition enumerate {A} (xs : list A) : list (nat * A) := enumerate_from 0 xs.

(** [zip] applied to the unpacked [args]: one tuple per position, as many
    as the shortest argument has; no tuple at all when there is no
    argument. *)
Fixpoint zip_star {A} (args : list (list A)) : list (list A) :=
  match args with
  | [] => []
  | a :: rest =>
      match rest with
      | [] => (λ x, [x]) <$> a
      | _ :: _ => zip_with cons a (zip_star rest)
      end
  end.

(** [a, b = xs]: the right-hand side must have exactly two elements. *)
Definition unpack2 {A} (xs : list A) : result (A * A) :=
  match xs with
  | [a; b] => Ok (a, b)
  | _ => Raise ValueError
  end.

(** [for x in xs: s = body(s, x)], stopping at the first exception. *)
Fixpoint for_each {S A} (body : S → A → result S) (xs : list A) (s : S)
  : result S :=
  match xs with
  | [] => Ok s
  | x :: rest => s' ← body s x; for_each body rest s'
  end.

(** [seq[:stop]] and [seq[start:]] for non-negative bounds. *)
Definition slice_to {A} (stop : nat) (xs : list A) : list A := take stop xs.
Definition slice_from {A} (start : nat) (xs : list A) : list A := drop start xs.

(** [seq[:-1]]: the stop index [-1] is [len(seq) - 1], clamped at 0. *)
Definition slice_to_minus1 {A} (xs : list A) : list A :=
  take (length xs - 1) xs.

End Py.

(** ** Tensors *)

Module Torch.

Record Tensor (A : Type) : Type := mkTensor {
  shape0 : nat;              (* [t.shape[0]] *)
  shape1 : nat;              (* [t.shape[1]] *)
  data : list (list A)       (* rows *)
}.
Arguments mkTensor {A} _ _ _.
Arguments shape0 {A} _.
Arguments shape1 {A} _.
Arguments data {A} _.

Definition shape {A} (t : Tensor A) : nat * nat := (shape0 t, shape1 t).

(** The rows agree with the declared shape. *)
Definition wf {A} (t : Tensor A) : Prop :=
  length (data t) = shape0 t ∧ Forall (λ row, length row = shape1 t) (data t).

(** [t[i, j]] *)
Definition get {A} (t : Tensor A) (i j : nat) : option A :=
  row ← data t !! i; row !! j.

(** [torch.full((n, m), v)] *)
Definition full {A} (n m : nat) (v : A) : Tensor A :=
  mkTensor n m (replicate n (replicate m v)).

(** [torch.arange(n)] *)
Definition arange (n : nat) : list nat := seq 0 n.

(** [v.expand(n, len(v))]: [n] copies of the row [v]. *)
Definition expand {A} (n : nat) (v : list A) : list (list A) := replicate n v.

(** [t[i, :stop] = vals].  The destination is the part of row [i] before
    [stop], at most the whole row.  The source must have as many
    elements, or exactly one, which is then broadcast. *)
Definition setitem_row_to {A} (t : Tensor A) (i stop : nat) (vals : list A)
  : result (Tensor A) :=
  match data t !! i with
  | None => Raise IndexError
  | Some row =>
      let n := Nat.min stop (shape1 t) in
      if decide (length vals = n) then
        Ok (mkTensor (shape0 t) (shape1 t) (<[i := vals ++ drop n row]> (data t)))
      else
        match vals with
        | [v] =>
            Ok (mkTensor (shape0 t) (shape1 t)
                  (<[i := replicate n v ++ drop n row]> (data t)))
        | _ => Raise RuntimeError
        end
  end.

(** [rows < torch.tensor(lengths).unsqueeze(1)]: row [i] is compared,
    element by element, with [lengths[i]]. *)
Definition lt_column (rows : list (list nat)) (lengths : list nat)
  : list (list bool) :=
  zip_with (λ row l, (λ j, bool_decide (j < l)) <$> row) rows lengths.

(** [t[..., :-1]] and [t[..., 1:]] on a 2-D tensor. *)
Definition drop_last_column {A} (t : Tensor A) : Tensor A :=
  mkTensor (shape0 t) (shape1 t - 1) (Py.slice_to_minus1 <$> data t).

Definition drop_first_column {A} (t : Tensor A) : Tensor A :=
  mkTensor (shape0 t) (shape1 t - 1) (Py.slice_from 1 <$> data t).

(** A layer applied to the last dimension: to every position of the grid. *)
Definition map_last {A B} (f : A → B) (t : Tensor A) : Tensor B :=
  mkTensor (shape0 t) (shape1 t) ((λ row : list A, f <$> row) <$> data t).

(** [t.view(-1)]: the rows one after another. *)
Definition view_flat {A} (t : Tensor A) : list A := concat (data t).

End Torch.

Import Torch.

(** ** The collator *)

(** The dictionary [{'token_ids': ..., 'mask': ...}]. *)
Record Tokens : Type := mkTokens {
  token_ids : Tensor Z;
  mask : Tensor bool
}.

Module PadFunction.

(** [self]: the collator holds its pad id. *)
Record t : Type := mk { pad_id : Z }.

(** The grid [merge] allocates before it copies the sequences. *)
Definition alloc (self : t) (lengths : list nat) (pad_size : nat) : Tensor Z :=
  Torch.full (length lengths) pad_size (pad_id self).

(** Body of the copy loop of [merge]:
    [end = lengths[i]; padded_seqs[i, :end] = seq[:end]]. *)
Definition copy_row (lengths : list nat) (padded_seqs : Tensor Z)
    (it : nat * list Z) : result (Tensor Z) :=
  let '(i, seq) := it in
  match lengths !! i with
  | None => Raise IndexError
  | Some end_ => Torch.setitem_row_to padded_seqs i end_ (Py.slice_to end_ seq)
  end.

Definition merge (self : t) (sequences : list (list Z)) (pad_size : option nat)
  : result (Tensor Z * list nat) :=
  let lengths := length <$> sequences in
  pad_size ← match pad_size with
             | None => Py.max lengths
             | Some n => Ok n
             end;
  padded_seqs ← Py.for_each (copy_row lengths) (Py.enumerate sequences)
                  (alloc self lengths pad_size);
  Ok (padded_seqs, lengths).

Definition make_mask (inputs : Tensor Z) (inputs_length : list nat)
  : Tensor bool :=
  let max_len := shape1 inputs in
  mkTensor (length inputs_length) max_len
    (Torch.lt_column (Torch.expand (length inputs_length) (Torch.arange max_len))
       inputs_length).

(** An example of the data set is a (source, target) pair, a 2-tuple. *)
Definition example_tuple (ex : list Z * list Z) : list (list Z) :=
  [ex.1; ex.2].

Definition _pad_fn (self : t) (batch : list (list Z * list Z))
  : result (Tokens * Tokens) :=
  '(src_seqs, trg_seqs) ← Py.unpack2 (Py.zip_star (example_tuple <$> batch));
  let pad_size := None in
  '(src_seqs, src_lengths) ← merge self src_seqs pad_size;
  '(trg_seqs, trg_lengths) ← merge self trg_seqs pad_size;
  let source_tokens := mkTokens src_seqs (make_mask src_seqs src_lengths) in
  let target_tokens := mkTokens trg_seqs (make_mask trg_seqs trg_lengths) in
  Ok (source_tokens, target_tokens).

Definition __call__ (self : t) (batch : list (list Z * list Z))
  : result (Tokens * Tokens) :=
  _pad_fn self batch.

End PadFunction.

(** ** The training and validation steps *)

Module BartForMaskedLM.

Section Steps.
(** The hidden state and the logit vector of one position, one term of
    the loss and the loss itself are floating-point data of the
    libraries; the steps only pass them on. *)
Context {Hidden LogitVec Term Loss : Type}.

(** [self]: the attributes the steps read.  [transformer] is the call
    of the [BartModel] with [input_ids], [attention_mask],
    [decoder_input_ids] and [decoder_attention_mask]: it raises, or gives
    the last hidden state of every decoder position; [lm_head] is the
    linear layer applied to each of them. *)
Record t : Type := mk {
  pad_token_id : Z;
  transformer :
    Tensor Z → Tensor bool → Tensor Z → Tensor bool → result (Tensor Hidden);
  lm_head : Hidden → LogitVec
}.

(** What is used of the [BartModel].  It has nothing to embed or to
    attend to in an input without columns: with no column in the encoder
    input or in the decoder input the call raises [RuntimeError]. *)
Definition transformer_raises_on_empty (self : t) : Prop :=
  ∀ input_ids input_mask decoder_ids decoder_mask,
    shape1 input_ids = 0 ∨ shape1 decoder_ids = 0 →
    transformer self input_ids input_mask decoder_ids decoder_mask
    = Raise RuntimeError.

(** When the call returns, there is one hidden state per decoder
    position (the source notes the shape of [last_hidden_state]: batch
    size by sequence length by hidden size). *)
Definition transformer_keeps_shape (self : t) : Prop :=
  ∀ input_ids input_mask decoder_ids decoder_mask hidden,
    Torch.wf decoder_ids →
    transformer self input_ids input_mask decoder_ids decoder_mask = Ok hidden →
    Torch.wf hidden ∧ Torch.shape hidden = Torch.shape decoder_ids.

(** [torch.nn.CrossEntropyLoss(ignore_index)] applied to one logit
    vector per row and one class index per row: the rows whose target
    is [ignore_index] are left out, the others contribute one term
    each, and the terms are averaged.  The term of a row ([term]) and
    the average ([mean]) are the library's arithmetic. *)
Variable term : LogitVec → Z → Term.
Variable mean : list Term → Loss.

Definition kept (ignore_index : Z) (input : list LogitVec) (target : list Z)
  : list (LogitVec * Z) :=
  filter (λ p, p.2 ≠ ignore_index) (zip input target).

Definition CrossEntropyLoss (ignore_index : Z)
    (input : list LogitVec) (target : list Z) : result Loss :=
  if decide (length input = length target) then
    Ok (mean ((λ p, term p.1 p.2) <$> kept ignore_index input target))
  else Raise ValueError.

Definition forward (self : t) (source_tokens target_tokens : Tokens)
  : result (Tensor LogitVec) :=
  let '(inputs, labels) := (source_tokens, target_tokens) in
  let '(input_ids, input_mask) := (token_ids inputs, mask inputs) in
  let '(label_ids, label_mask) := (token_ids labels, mask labels) in
  transformer_outputs ←
    transformer self input_ids input_mask label_ids label_mask;
  let hidden_states := transformer_outputs in
  let lm_logits := Torch.map_last (lm_head self) hidden_states in
  Ok lm_logits.

(** What a step leaves behind: its return value and the values it
    logged with [self.log]. *)
Definition logged (A : Type) : Type := A * list (string * Loss).

Definition training_step (self : t) (batch : Tokens * Tokens) (batch_idx : nat)
  : result (logged Loss) :=
  let '(inputs, labels) := batch in
  let '(input_ids, input_mask) := (token_ids inputs, mask inputs) in
  let '(label_ids, label_mask) := (token_ids labels, mask labels) in
  lm_logits ←
    forward self
      (mkTokens input_ids input_mask)
      (mkTokens (Torch.drop_last_column label_ids)
                (Torch.drop_last_column label_mask));
  let shift_label_ids := Torch.drop_first_column label_ids in
  let loss_fct := CrossEntropyLoss (pad_token_id self) in
  loss ← loss_fct (Torch.view_flat lm_logits) (Torch.view_flat shift_label_ids);
  Ok (loss, [("train_loss", loss)]).

Definition validation_step (self : t) (batch : Tokens * Tokens) (batch_idx : nat)
  : result (logged unit) :=
  let '(inputs, labels) := batch in
  let '(input_ids, input_mask) := (token_ids inputs, mask inputs) in
  let '(label_ids, label_mask) := (token_ids labels, mask labels) in
  lm_logits ←
    forward self
      (mkTokens input_ids input_mask)
      (mkTokens (Torch.drop_last_column label_ids)
                (Torch.drop_last_column label_mask));
  let shift_label_ids := Torch.drop_first_column label_ids in
  let loss_fct := CrossEntropyLoss (pad_token_id self) in
  loss ← loss_fct (Torch.view_flat lm_logits) (Torch.view_flat shift_label_ids);
  Ok ((), [("val_loss", loss)]).

End Steps.

Arguments t : clear implicits.

(** A small model to run the steps on in examples: it raises on an input
    without columns as the [BartModel] does, and otherwise gives the
    decoder ids back as hidden states, which the head leaves as they
    are; its pad token id is 0. *)
Definition echo : t Z Z :=
  mk 0%Z
    (λ input_ids _ decoder_ids _,
       if decide (shape1 input_ids = 0 ∨ shape1 decoder_ids = 0)
       then Raise RuntimeError else Ok decoder_ids)
    (λ h, h).

End BartForMaskedLM.

(** ** Closed forms used in the proofs *)

(** Row of the padded grid for one sequence: the sequence, then pad ids up
    to [width]. *)
Definition padded_row (pad : Z) (width : nat) (s : list Z) : list Z :=
  s ++ replicate (width - length s) pad.

(** Row of the mask for a sequence of length [len]. *)
Definition mask_row (width len : nat) : list bool :=
  (λ j, bool_decide (j < len)) <$> seq 0 width.

(** The widest sequence of a batch side. *)
Definition batch_width (seqs : list (list Z)) : nat := max_list (length <$> seqs).

(** What the collator returns for one side of a batch. *)
Definition collated (pad : Z) (seqs : list (list Z)) : Tokens :=
  let w := batch_width seqs in
  mkTokens (mkTensor (length seqs) w (padded_row pad w <$> seqs))
           (mkTensor (length seqs) w (mask_row w ∘ length <$> seqs)).

(** A pair of token structures as the collator makes them: each tensor
    agrees with its shape, and ids and mask have one shape. *)
Definition Tokens_wf (tk : Tokens) : Prop :=
  Torch.wf (token_ids tk) ∧ Torch.wf (mask tk) ∧
  Torch.shape (mask tk) = Torch.shape (token_ids tk).

(** ** The data loaders *)

Module DataLoader.

(** [torch.utils.data.ConcatDataset(datasets)]: the examples of the
    data sets one after another. *)
Definition ConcatDataset {A} (datasets : list (list A)) : list A :=
  concat datasets.

(** [torch.utils.data.SequentialSampler(data_source)]: every index, in
    order. *)
Definition SequentialSampler {A} (data_source : list A) : list nat :=
  seq 0 (length data_source).

(** [torch.utils.data.RandomSampler(data_source, num_samples=...,
    replacement=True)]: the constructor raises [ValueError] unless
    [num_samples] is positive; an epoch then is [num_samples] indices
    drawn below [len(data_source)].  The indices drawn, [draws], are an
    input of the model. *)
Definition RandomSampler {A} (data_source : list A) (num_samples : nat)
    (draws : list nat) : result (list nat) :=
  if decide (num_samples = 0) then Raise ValueError else Ok draws.


(** The batch sampler of a loader that keeps the last, shorter batch:
    [batch] collects indices, is yielded as soon as it holds
    [batch_size] of them and started afresh, and what is left at the end
    is yielded if it is not empty. *)
Fixpoint batch_sampler (batch_size : nat) (sampler : list nat) (batch : list nat)
  : list (list nat) :=
  match sampler with
  | [] => match batch with [] => [] | _ :: _ => [batch] end
  | idx :: rest =>
      let batch := batch ++ [idx] in
      if decide (length batch = batch_size) then
        batch :: batch_sampler batch_size rest []
      else batch_sampler batch_size rest batch
  end.

(** [[dataset[idx] for idx in batch]] *)
Fixpoint fetch {A} (dataset : list A) (batch : list nat) : result (list A) :=
  match batch with
  | [] => Ok []
  | idx :: rest =>
      match dataset !! idx with
      | None => Raise IndexError
      | Some x => xs ← fetch dataset rest; Ok (x :: xs)
      end
  end.

(** One pass over [DataLoader(dataset, batch_size=..., collate_fn=...,
    sampler=...)]: what each step of the iteration gives, a collated batch
    or the exception that ends the pass. *)
Definition batches {A B} (dataset : list A) (batch_size : nat)
    (collate_fn : list A → result B) (sampler : list nat) : list (result B) :=
  (λ batch, samples ← fetch dataset batch; collate_fn samples)
    <$> batch_sampler batch_size sampler [].

End DataLoader.

Module Loaders.

Section Loaders.
Context {Hidden LogitVec : Type}.

(** [self.batch_size = 8], set by [__init__]. *)
Definition batch_size (self : BartForMaskedLM.t Hidden LogitVec) : nat := 8.

(** [BartForMaskedLM.train_dataloader]: the seven corpora are data sets
    of (source, target) examples; the pad id of the collator is the pad
    token id of the tokenizer, which is [self.pad_token_id]. *)
Definition train_dataloader (self : BartForMaskedLM.t Hidden LogitVec)
    (ai_challenger_2017_dataset minecraft_dataset translation2019zh_dataset
     MultiUN_en_zh_dataset umcorpus_dataset news_commentary_dataset
     ted_dataset : list (list Z * list Z))
    (draws : list nat) : result (list (result (Tokens * Tokens))) :=
  let dataset :=
    DataLoader.ConcatDataset
      [ai_challenger_2017_dataset; minecraft_dataset; translation2019zh_dataset;
       MultiUN_en_zh_dataset; umcorpus_dataset; news_commentary_dataset;
       ted_dataset] in
  train_sampler ← DataLoader.RandomSampler dataset (length dataset / 100) draws;
  let pad_fn_object := PadFunction.mk (BartForMaskedLM.pad_token_id self) in
  Ok (DataLoader.batches dataset (batch_size self)
        (PadFunction.__call__ pad_fn_object) train_sampler).

(** [BartForMaskedLM.val_dataloader] *)
Definition val_dataloader (self : BartForMaskedLM.t Hidden LogitVec)
    (translation2019zh_valid_dataset : list (list Z * list Z))
  : list (result (Tokens * Tokens)) :=
  let valid_dataset := translation2019zh_valid_dataset in
  let valid_sampler := DataLoader.SequentialSampler valid_dataset in
  let pad_fn_object := PadFunction.mk (BartForMaskedLM.pad_token_id self) in
  DataLoader.batches valid_dataset (batch_size self)
    (PadFunction.__call__ pad_fn_object) valid_sampler.

End Loaders.

End Loaders.

(** ** Reading a batch back *)

(** The entries of a row of ids that the mask row marks as real. *)
Definition unpad_row (row : list Z) (mask_row : list bool) : list Z :=
  (filter (λ p, p.2 = true) (zip row mask_row)).*1.

(** The sequences a structure holds, row by row. *)
Definition unpad (tk : Tokens) : list (list Z) :=
  zip_with unpad_row (data (token_ids tk)) (data (mask tk)).

(** The examples at the indices of [batch], those in range. *)
Definition pick {A} (dataset : list A) (batch : list nat) : list A :=
  omap (λ idx, dataset !! idx) batch.

(** The examples a collated batch holds. *)
Definition read_back (b : Tokens * Tokens) : list (list Z * list Z) :=
  zip (unpad b.1) (unpad b.2).

(** The rows of a collated batch side by side: for every row index the
    source ids row with its mask row, and the target ids row with its
    mask row. *)
Definition aligned_rows (b : Tokens * Tokens)
  : list ((list Z * list bool) * (list Z * list bool)) :=
  zip (zip (data (token_ids b.1)) (data (mask b.1)))
      (zip (data (token_ids b.2)) (data (mask b.2))).

(** ** A run of the collator *)

(** The example of the specification, with a target side added. *)
Example spec_example :
  PadFunction.__call__ (PadFunction.mk 0%Z) [([1; 2; 3], [7]); ([4; 5], [])]%Z
  = Ok (mkTokens (mkTensor 2 3 [[1; 2; 3]; [4; 5; 0]]%Z)
                 (mkTensor 2 3 [[true; true; true]; [true; true; false]]),
        mkTokens (mkTensor 2 1 [[7]; [0]]%Z)
                 (mkTensor 2 1 [[true]; [false]])).
Proof. reflexivity. Qed.

(** ** Lemmas on the built-ins *)

Lemma bind_Ok {A B} (k : A → result B) (a : A) : (Ok a ≫= k) = k a.
Proof. reflexivity. Qed.

Lemma foldl_max_max_list (a : nat) (l : list nat) :
  foldl Nat.max a l = a `max` max_list l.
Proof.
  revert a. induction l as [|x l IH]; intros a; simpl; [lia|].
  rewrite IH. lia.
Qed.

Lemma py_max_nonempty (l : list nat) :
  l ≠ [] → Py.max l = Ok (max_list l).
Proof.
  destruct l as [|x l]; [done|]. intros _. simpl.
  by rewrite foldl_max_max_list.
Qed.

Lemma max_list_bound (l : list nat) (x : nat) : x ∈ l → x ≤ max_list l.
Proof.
  induction 1 as [x l|x y l _ IH]; simpl; lia.
Qed.

Lemma zip_star_pairs (batch : list (list Z * list Z)) :
  batch ≠ [] →
  Py.zip_star (PadFunction.example_tuple <$> batch) = [batch.*1; batch.*2].
Proof.
  induction batch as [|[a b] rest IH]; [done|]. intros _.
  destruct rest as [|ex rest]; [done|].
  change (Py.zip_star (PadFunction.example_tuple <$> (a, b) :: ex :: rest))
    with (zip_with cons [a; b]
            (Py.zip_star (PadFunction.example_tuple <$> ex :: rest))).
  by rewrite IH.
Qed.

Lemma lt_column_expand (row : list nat) (lengths : list nat) :
  Torch.lt_column (Torch.expand (length lengths) row) lengths
  = (λ l, (λ j, bool_decide (j < l)) <$> row) <$> lengths.
Proof.
  unfold Torch.lt_column, Torch.expand.
  induction lengths as [|l lengths IH]; simpl; [done|]. by rewrite IH.
Qed.

(** ** The copy loop of [merge] *)

Section CopyLoop.
Variable self : PadFunction.t.
Variable width : nat.
Variable lengths : list nat.

Let pad := PadFunction.pad_id self.
Let blank := replicate width pad.

Lemma copy_row_blank (n k : nat) (done todo : list (list Z)) (s : list Z) :
  length done = k →
  lengths !! k = Some (length s) →
  length s ≤ width →
  PadFunction.copy_row lengths (mkTensor n width (done ++ blank :: todo)) (k, s)
  = Ok (mkTensor n width (done ++ padded_row pad width s :: todo)).
Proof.
  intros Hk Hl Hw. unfold PadFunction.copy_row. rewrite Hl.
  unfold Torch.setitem_row_to, Py.slice_to. simpl.
  rewrite lookup_app_r; [|lia].
  replace (k - length done) with 0 by lia. simpl.
  rewrite firstn_all, Nat.min_l by done.
  rewrite decide_True by done.
  do 2 f_equal. subst k.
  rewrite insert_app_r_alt, Nat.sub_diag; [|done]. simpl.
  unfold padded_row, blank. by rewrite drop_replicate.
Qed.

Lemma copy_loop (n : nat) (todo done : list (list Z)) (k : nat) :
  length done = k →
  (∀ i s, todo !! i = Some s → lengths !! (k + i) = Some (length s)) →
  Forall (λ s, length s ≤ width) todo →
  Py.for_each (PadFunction.copy_row lengths) (Py.enumerate_from k todo)
    (mkTensor n width (done ++ replicate (length todo) blank))
  = Ok (mkTensor n width (done ++ (padded_row pad width <$> todo))).
Proof.
  revert done k. induction todo as [|s todo IH]; intros done k Hk Hl Hw.
  - done.
  - apply Forall_cons in Hw as [Hs Hw].
    cbn [Py.enumerate_from Py.for_each replicate length].
    rewrite copy_row_blank; [|done|by rewrite <- (Hl 0 s), Nat.add_0_r|done].
    rewrite bind_Ok.
    specialize (IH (done ++ [padded_row pad width s]) (S k)).
    rewrite <- !app_assoc in IH. apply IH; [|clear IH|done].
    + rewrite length_app. simpl. lia.
    + intros i s' Hi. rewrite <- (Hl (S i) s' Hi). f_equal. lia.
Qed.
End CopyLoop.

(** ** [merge], [make_mask] and the call in closed form *)

Lemma merge_None (self : PadFunction.t) (seqs : list (list Z)) :
  seqs ≠ [] →
  PadFunction.merge self seqs None
  = Ok (token_ids (collated (PadFunction.pad_id self) seqs), length <$> seqs).
Proof.
  intros Hne. unfold PadFunction.merge.
  rewrite py_max_nonempty by (by destruct seqs).
  rewrite bind_Ok. unfold PadFunction.alloc, Torch.full, Py.enumerate.
  rewrite length_fmap.
  pose proof (copy_loop self (batch_width seqs) (length <$> seqs)
                (length seqs) seqs [] 0) as Hloop.
  cbn [app] in Hloop.
  change (max_list (length <$> seqs)) with (batch_width seqs).
  rewrite Hloop.
  - done.
  - done.
  - intros i s Hi. rewrite Nat.add_0_l. by rewrite list_lookup_fmap, Hi.
  - apply Forall_forall. intros s Hs. apply max_list_bound.
    apply list_elem_of_fmap. eauto.
Qed.

Lemma make_mask_collated (pad : Z) (seqs : list (list Z)) :
  PadFunction.make_mask (token_ids (collated pad seqs)) (length <$> seqs)
  = mask (collated pad seqs).
Proof.
  unfold PadFunction.make_mask, collated. simpl.
  rewrite lt_column_expand, length_fmap. f_equal.
  by rewrite <- list_fmap_compose.
Qed.

Lemma call_nonempty (self : PadFunction.t) (batch : list (list Z * list Z)) :
  batch ≠ [] →
  PadFunction.__call__ self batch
  = Ok (collated (PadFunction.pad_id self) batch.*1,
        collated (PadFunction.pad_id self) batch.*2).
Proof.
  intros Hne. unfold PadFunction.__call__, PadFunction._pad_fn.
  rewrite zip_star_pairs by done. cbn [Py.unpack2]. rewrite bind_Ok.
  rewrite !merge_None by (by destruct batch). rewrite !bind_Ok.
  by rewrite !make_mask_collated.
Qed.

Lemma call_empty (self : PadFunction.t) :
  PadFunction.__call__ self [] = Raise ValueError.
Proof. reflexivity. Qed.

(** ** Entries of the collated tensors *)

Lemma length_padded_row (pad : Z) (w : nat) (s : list Z) :
  length s ≤ w → length (padded_row pad w s) = w.
Proof.
  intros H. unfold padded_row. rewrite length_app, length_replicate. lia.
Qed.

Lemma length_mask_row (w len : nat) : length (mask_row w len) = w.
Proof. unfold mask_row. by rewrite length_fmap, length_seq. Qed.

Lemma lookup_mask_row (w len j : nat) (b : bool) :
  mask_row w len !! j = Some b ↔ j < w ∧ b = bool_decide (j < len).
Proof.
  unfold mask_row. rewrite list_lookup_fmap. split.
  - intros H. apply fmap_Some in H as (k & Hk & ->).
    apply lookup_seq in Hk as [-> ?]. done.
  - intros [Hj ->]. by rewrite lookup_seq_lt.
Qed.

Lemma length_le_batch_width (seqs : list (list Z)) (i : nat) (s : list Z) :
  seqs !! i = Some s → length s ≤ batch_width seqs.
Proof.
  intros Hi. apply max_list_bound, list_elem_of_fmap.
  exists s. split; [done|]. by eapply list_elem_of_lookup_2.
Qed.

Lemma get_token_ids_collated (pad : Z) (seqs : list (list Z)) (i j : nat)
    (s : list Z) :
  seqs !! i = Some s →
  Torch.get (token_ids (collated pad seqs)) i j
  = padded_row pad (batch_width seqs) s !! j.
Proof.
  intros Hi. unfold Torch.get, collated. simpl.
  by rewrite list_lookup_fmap, Hi.
Qed.

Lemma get_mask_collated (pad : Z) (seqs : list (list Z)) (i j : nat)
    (s : list Z) :
  seqs !! i = Some s →
  Torch.get (mask (collated pad seqs)) i j
  = mask_row (batch_width seqs) (length s) !! j.
Proof.
  intros Hi. unfold Torch.get, collated. simpl.
  by rewrite list_lookup_fmap, Hi.
Qed.

Lemma collated_wf (pad : Z) (seqs : list (list Z)) : Tokens_wf (collated pad seqs).
Proof.
  unfold Tokens_wf, Torch.wf, collated. simpl.
  rewrite !length_fmap. repeat split.
  - apply Forall_fmap, Forall_lookup. intros i s Hi. simpl.
    apply length_padded_row. by eapply length_le_batch_width.
  - apply Forall_fmap, Forall_forall. intros s _. simpl. apply length_mask_row.
Qed.

Lemma lookup_side (batch : list (list Z * list Z)) (i : nat) (s t : list Z) :
  batch !! i = Some (s, t) → batch.*1 !! i = Some s ∧ batch.*2 !! i = Some t.
Proof. intros Hi. by rewrite !list_lookup_fmap, Hi. Qed.

Lemma mask_collated_true (pad : Z) (seqs : list (list Z)) (i j : nat) (s : list Z) :
  seqs !! i = Some s →
  Torch.get (mask (collated pad seqs)) i j = Some true ↔ j < length s.
Proof.
  intros Hi. rewrite (get_mask_collated _ _ _ _ s Hi), lookup_mask_row.
  pose proof (length_le_batch_width _ _ _ Hi).
  case_bool_decide; split; intros; destruct_and?; (done || lia || (split; [lia|done])).
Qed.

Lemma mask_collated_false (pad : Z) (seqs : list (list Z)) (i j : nat) (s : list Z) :
  seqs !! i = Some s →
  Torch.get (mask (collated pad seqs)) i j = Some false
  ↔ length s ≤ j < shape1 (mask (collated pad seqs)).
Proof.
  intros Hi. rewrite (get_mask_collated _ _ _ _ s Hi), lookup_mask_row. simpl.
  case_bool_decide; split; intros; destruct_and?; (done || lia || (split; [lia|done])).
Qed.

Lemma mask_collated_lengths (pad : Z) (seqs : list (list Z)) :
  mask (collated pad seqs)
  = let ls := length <$> seqs in
    mkTensor (length ls) (max_list ls) (mask_row (max_list ls) <$> ls).
Proof.
  unfold collated, batch_width. simpl.
  by rewrite length_fmap, <- list_fmap_compose.
Qed.

(** ** Properties of the collator *)

(** C1.  For a non-empty batch the call returns, and in both returned
    structures the mask entry at row [i], position [j] is [true] exactly
    when [j] is below the length of the [i]-th input sequence of that side,
    and [false] exactly at the other positions of the row.  The mask is a
    function of the lengths alone: a batch with the same lengths gets the
    same masks. *)
Theorem mask_true_iff_below_length
    (self : PadFunction.t) (batch : list (list Z * list Z)) :
  batch ≠ [] →
  ∃ src tgt,
    PadFunction.__call__ self batch = Ok (src, tgt) ∧
    (∀ i s t, batch !! i = Some (s, t) →
       (∀ j, Torch.get (mask src) i j = Some true ↔ j < length s) ∧
       (∀ j, Torch.get (mask src) i j = Some false
             ↔ length s ≤ j < shape1 (mask src)) ∧
       (∀ j, Torch.get (mask tgt) i j = Some true ↔ j < length t) ∧
       (∀ j, Torch.get (mask tgt) i j = Some false
             ↔ length t ≤ j < shape1 (mask tgt))) ∧
    (∀ self' batch' src' tgt',
       PadFunction.__call__ self' batch' = Ok (src', tgt') →
       (length <$> batch'.*1 = length <$> batch.*1 → mask src' = mask src) ∧
       (length <$> batch'.*2 = length <$> batch.*2 → mask tgt' = mask tgt)).
Proof.
  intros Hne. rewrite call_nonempty by done.
  eexists _, _. split; [done|]. split.
  - intros i s t Hi. apply lookup_side in Hi as [Hs Ht].
    split; [|split; [|split]]; intros j.
    + by apply mask_collated_true.
    + by apply mask_collated_false.
    + by apply mask_collated_true.
    + by apply mask_collated_false.
  - intros self' batch' src' tgt' Hcall.
    destruct (decide (batch' = [])) as [->|Hne']; [done|].
    rewrite call_nonempty in Hcall by done.
    assert (src' = collated (PadFunction.pad_id self') batch'.*1) as ->
      by congruence.
    assert (tgt' = collated (PadFunction.pad_id self') batch'.*2) as ->
      by congruence.
    rewrite !mask_collated_lengths. cbv zeta.
    split; intros Heq; by rewrite Heq.
Qed.

Lemma mask_true_iff_below_length_witness :
  ∃ src tgt,
    PadFunction.__call__ (PadFunction.mk 0%Z) [([1; 2; 3], [7]); ([4; 5], [])]%Z
    = Ok (src, tgt) ∧
    ∀ j, Torch.get (mask src) 1 j = Some true ↔ j < 2.
Proof.
  destruct (mask_true_iff_below_length
              (PadFunction.mk 0%Z) [([1; 2; 3], [7]); ([4; 5], [])]%Z
              ltac:(discriminate))
    as (src & tgt & Hcall & Hmask & _).
  exists src, tgt. split; [exact Hcall|].
  intros j. apply (Hmask 1 [4; 5]%Z [] eq_refl).
Defined.

(** C2.  For a non-empty batch the padded [token_ids] of each side has as
    its width the largest length among the sequences of that side of this
    batch, and every row of it has that many entries. *)
Theorem padded_width_is_batch_max
    (self : PadFunction.t) (batch : list (list Z * list Z)) :
  batch ≠ [] →
  ∃ src tgt,
    PadFunction.__call__ self batch = Ok (src, tgt) ∧
    shape1 (token_ids src) = max_list (length <$> batch.*1) ∧
    shape1 (token_ids tgt) = max_list (length <$> batch.*2) ∧
    Forall (λ row, length row = max_list (length <$> batch.*1))
      (data (token_ids src)) ∧
    Forall (λ row, length row = max_list (length <$> batch.*2))
      (data (token_ids tgt)).
Proof.
  intros Hne. rewrite call_nonempty by done.
  eexists _, _. split; [done|].
  split; [done|]. split; [done|].
  split; apply (collated_wf (PadFunction.pad_id self)).
Qed.

Lemma padded_width_is_batch_max_witness :
  ∃ src tgt,
    PadFunction.__call__ (PadFunction.mk 0%Z) [([1; 2; 3], [7]); ([4; 5], [])]%Z
    = Ok (src, tgt) ∧
    shape1 (token_ids src) = 3 ∧ shape1 (token_ids tgt) = 1.
Proof.
  destruct (padded_width_is_batch_max
              (PadFunction.mk 0%Z) [([1; 2; 3], [7]); ([4; 5], [])]%Z
              ltac:(discriminate))
    as (src & tgt & Hcall & Hsrc & Htgt & _).
  exists src, tgt. split; [exact Hcall|]. split; [exact Hsrc | exact Htgt].
Defined.

Lemma padded_row_beyond (pad : Z) (w j : nat) (s : list Z) :
  length s ≤ j < w → padded_row pad w s !! j = Some pad.
Proof.
  intros [Hl Hw]. unfold padded_row.
  rewrite lookup_app_r by done. apply lookup_replicate_2. lia.
Qed.

(** C3.  For a non-empty batch, in each side every entry of row [i] of
    [token_ids] at a position from the length of the [i]-th sequence up to
    the width is the pad id of the collator. *)
Theorem padding_is_pad_id
    (self : PadFunction.t) (batch : list (list Z * list Z)) :
  batch ≠ [] →
  ∃ src tgt,
    PadFunction.__call__ self batch = Ok (src, tgt) ∧
    ∀ i s t j, batch !! i = Some (s, t) →
      (length s ≤ j < shape1 (token_ids src) →
       Torch.get (token_ids src) i j = Some (PadFunction.pad_id self)) ∧
      (length t ≤ j < shape1 (token_ids tgt) →
       Torch.get (token_ids tgt) i j = Some (PadFunction.pad_id self)).
Proof.
  intros Hne. rewrite call_nonempty by done.
  eexists _, _. split; [done|].
  intros i s t j Hi. apply lookup_side in Hi as [Hs Ht].
  split; intros Hj; simpl in Hj.
  - rewrite (get_token_ids_collated _ _ _ _ s Hs). by apply padded_row_beyond.
  - rewrite (get_token_ids_collated _ _ _ _ t Ht). by apply padded_row_beyond.
Qed.

Lemma padding_is_pad_id_witness :
  ∃ src tgt,
    PadFunction.__call__ (PadFunction.mk 9%Z) [([1; 2; 3], [7]); ([4; 5], [])]%Z
    = Ok (src, tgt) ∧
    (2 ≤ 2 < shape1 (token_ids src) →
     Torch.get (token_ids src) 1 2 = Some 9%Z).
Proof.
  destruct (padding_is_pad_id
              (PadFunction.mk 9%Z) [([1; 2; 3], [7]); ([4; 5], [])]%Z
              ltac:(discriminate))
    as (src & tgt & Hcall & Hpad).
  exists src, tgt. split; [exact Hcall|].
  apply (Hpad 1 [4; 5]%Z [] 2 eq_refl).
Defined.

(** C4.  For a non-empty batch the grids have one row per example, in the
    order of the batch, and the first [Li] entries of row [i] are the
    [i]-th input sequence, entry for entry. *)
Theorem rows_hold_sequences_in_order
    (self : PadFunction.t) (batch : list (list Z * list Z)) :
  batch ≠ [] →
  ∃ src tgt,
    PadFunction.__call__ self batch = Ok (src, tgt) ∧
    length (data (token_ids src)) = length batch ∧
    length (data (token_ids tgt)) = length batch ∧
    ∀ i s t, batch !! i = Some (s, t) →
      (∃ row, data (token_ids src) !! i = Some row ∧ take (length s) row = s) ∧
      (∃ row, data (token_ids tgt) !! i = Some row ∧ take (length t) row = t).
Proof.
  intros Hne. rewrite call_nonempty by done.
  eexists _, _. split; [done|].
  unfold collated. cbn [token_ids data]. rewrite !length_fmap.
  split; [done|]. split; [done|].
  intros i s t Hi. apply lookup_side in Hi as [Hs Ht].
  rewrite !(list_lookup_fmap (padded_row _ _)), Hs, Ht. simpl.
  split; eexists; (split; [done|]); unfold padded_row; by rewrite take_app_length.
Qed.

Lemma rows_hold_sequences_in_order_witness :
  ∃ src tgt,
    PadFunction.__call__ (PadFunction.mk 0%Z) [([1; 2; 3], [7]); ([4; 5], [])]%Z
    = Ok (src, tgt) ∧
    ∃ row, data (token_ids src) !! 1 = Some row ∧ take 2 row = [4; 5]%Z.
Proof.
  destruct (rows_hold_sequences_in_order
              (PadFunction.mk 0%Z) [([1; 2; 3], [7]); ([4; 5], [])]%Z
              ltac:(discriminate))
    as (src & tgt & Hcall & _ & _ & Hrows).
  exists src, tgt. split; [exact Hcall|].
  apply (Hrows 1 [4; 5]%Z [] eq_refl).
Defined.

(** C5.  Each side of the result is a function of the sequences of that
    side alone: two batches with the same source sequences get the same
    source structure whatever their targets are, and likewise for the
    targets.  Each side is as wide as its own longest sequence, and there
    is a batch whose two sides differ in width. *)
Theorem sides_padded_independently (self : PadFunction.t) :
  (∀ b1 b2 src1 tgt1 src2 tgt2,
     PadFunction.__call__ self b1 = Ok (src1, tgt1) →
     PadFunction.__call__ self b2 = Ok (src2, tgt2) →
     (b1.*1 = b2.*1 → src1 = src2) ∧ (b1.*2 = b2.*2 → tgt1 = tgt2)) ∧
  (∀ b src tgt,
     PadFunction.__call__ self b = Ok (src, tgt) →
     shape1 (token_ids src) = max_list (length <$> b.*1) ∧
     shape1 (token_ids tgt) = max_list (length <$> b.*2)) ∧
  (∃ b src tgt,
     PadFunction.__call__ self b = Ok (src, tgt) ∧
     shape1 (token_ids src) ≠ shape1 (token_ids tgt)).
Proof.
  split; [|split].
  - intros b1 b2 src1 tgt1 src2 tgt2 H1 H2.
    destruct (decide (b1 = [])) as [->|Hne1]; [done|].
    destruct (decide (b2 = [])) as [->|Hne2]; [done|].
    rewrite call_nonempty in H1, H2 by done.
    split; intros Heq; [rewrite Heq in H1|rewrite Heq in H1]; congruence.
  - intros b src tgt H.
    destruct (decide (b = [])) as [->|Hne]; [done|].
    rewrite call_nonempty in H by done.
    assert (src = collated (PadFunction.pad_id self) b.*1) as -> by congruence.
    assert (tgt = collated (PadFunction.pad_id self) b.*2) as -> by congruence.
    done.
  - exists [([1], [2; 3])]%Z. eexists _, _. split; [reflexivity|]. simpl. lia.
Qed.

Lemma batch_width_all_empty (seqs : list (list Z)) :
  Forall (λ s, s = []) seqs → batch_width seqs = 0.
Proof.
  unfold batch_width. induction 1 as [|s seqs -> _ IH]; [done|].
  change (max_list (length <$> [] :: seqs))
    with (0 `max` max_list (length <$> seqs)).
  by rewrite IH.
Qed.

Lemma collated_all_empty (pad : Z) (seqs : list (list Z)) :
  Forall (λ s, s = []) seqs →
  collated pad seqs
  = mkTokens (mkTensor (length seqs) 0 (replicate (length seqs) []))
             (mkTensor (length seqs) 0 (replicate (length seqs) [])).
Proof.
  intros Hall. unfold collated. rewrite batch_width_all_empty by done.
  cbv zeta. f_equal; f_equal.
  - induction Hall as [|s seqs -> _ IH]; [done|].
    rewrite fmap_cons, IH. done.
  - induction Hall as [|s seqs -> _ IH]; [done|].
    rewrite fmap_cons, IH. done.
Qed.

(** C8.  For a batch of [N >= 1] pairs whose sequences are all empty the
    call returns; ids and mask of both sides have shape [(N, 0)] and
    consist of [N] empty rows. *)
Theorem all_empty_sequences_zero_width
    (self : PadFunction.t) (batch : list (list Z * list Z)) :
  batch ≠ [] →
  Forall (λ ex, ex.1 = [] ∧ ex.2 = []) batch →
  ∃ src tgt,
    PadFunction.__call__ self batch = Ok (src, tgt) ∧
    Torch.shape (token_ids src) = (length batch, 0) ∧
    Torch.shape (mask src) = (length batch, 0) ∧
    Torch.shape (token_ids tgt) = (length batch, 0) ∧
    Torch.shape (mask tgt) = (length batch, 0) ∧
    data (token_ids src) = replicate (length batch) [] ∧
    data (mask src) = replicate (length batch) [] ∧
    data (token_ids tgt) = replicate (length batch) [] ∧
    data (mask tgt) = replicate (length batch) [].
Proof.
  intros Hne Hall. rewrite call_nonempty by done.
  eexists _, _. split; [done|].
  rewrite !collated_all_empty.
  - unfold Torch.shape. simpl. by rewrite !length_fmap.
  - apply Forall_fmap. eapply Forall_impl; [exact Hall|]. by intros ? [_ ?].
  - apply Forall_fmap. eapply Forall_impl; [exact Hall|]. by intros ? [? _].
Qed.

Lemma all_empty_sequences_zero_width_witness :
  ∃ src tgt,
    PadFunction.__call__ (PadFunction.mk 0%Z) [([], []); ([], []); ([], [])]
    = Ok (src, tgt) ∧
    Torch.shape (token_ids src) = (3, 0) ∧
    Torch.shape (mask tgt) = (3, 0).
Proof.
  destruct (all_empty_sequences_zero_width
              (PadFunction.mk 0%Z) [([], []); ([], []); ([], [])]
              ltac:(discriminate)
              ltac:(repeat constructor))
    as (src & tgt & Hcall & Hs & _ & _ & Ht & _).
  exists src, tgt. split; [exact Hcall|]. split; [exact Hs | exact Ht].
Defined.

(** C9.  For a non-empty batch, in each returned structure the mask has
    the shape of [token_ids], and the rows of both tensors agree with that
    shape: as many rows, each as long as the width. *)
Theorem mask_has_shape_of_token_ids
    (self : PadFunction.t) (batch : list (list Z * list Z)) :
  batch ≠ [] →
  ∃ src tgt,
    PadFunction.__call__ self batch = Ok (src, tgt) ∧
    Torch.shape (mask src) = Torch.shape (token_ids src) ∧
    Torch.shape (mask tgt) = Torch.shape (token_ids tgt) ∧
    Torch.wf (token_ids src) ∧ Torch.wf (mask src) ∧
    Torch.wf (token_ids tgt) ∧ Torch.wf (mask tgt).
Proof.
  intros Hne. rewrite call_nonempty by done.
  eexists _, _. split; [done|].
  destruct (collated_wf (PadFunction.pad_id self) batch.*1) as (? & ? & ?).
  destruct (collated_wf (PadFunction.pad_id self) batch.*2) as (? & ? & ?).
  done.
Qed.

Lemma mask_has_shape_of_token_ids_witness :
  ∃ src tgt,
    PadFunction.__call__ (PadFunction.mk 0%Z) [([1; 2; 3], [7]); ([4; 5], [])]%Z
    = Ok (src, tgt) ∧
    Torch.shape (mask src) = Torch.shape (token_ids src) ∧
    Torch.shape (mask tgt) = Torch.shape (token_ids tgt).
Proof.
  destruct (mask_has_shape_of_token_ids
              (PadFunction.mk 0%Z) [([1; 2; 3], [7]); ([4; 5], [])]%Z
              ltac:(discriminate))
    as (src & tgt & Hcall & Hs & Ht & _).
  exists src, tgt. split; [exact Hcall|]. split; [exact Hs | exact Ht].
Defined.

(** C10.  On the empty batch [zip] yields no tuple, the unpacking into
    source and target raises, and so does the call; [merge] on no
    sequence raises as well, at [max].  The call returns exactly on the
    non-empty batches. *)
Theorem empty_batch_raises (self : PadFunction.t) :
  Py.zip_star (PadFunction.example_tuple <$> []) = [] ∧
  Py.unpack2 (Py.zip_star (PadFunction.example_tuple <$> []))
    = Raise ValueError ∧
  PadFunction.__call__ self [] = Raise ValueError ∧
  PadFunction.merge self [] None = Raise ValueError ∧
  (∀ batch, returns (PadFunction.__call__ self batch) ↔ batch ≠ []).
Proof.
  repeat (split; [reflexivity|]).
  intros batch. split.
  - intros [r Hr] ->. discriminate.
  - intros Hne. rewrite call_nonempty by done. by eexists.
Qed.

(** C7, as stated, fails: for the two sequences [1,2,3] and [4,5] the
    length is 3 and [N] is 2, and the grid [merge] allocates has 2 rows
    and 3 columns, not 3 rows and 2 columns; so has the grid it returns. *)
Lemma grid_not_length_by_N :
  let self := PadFunction.mk 0%Z in
  let sequences := [[1; 2; 3]; [4; 5]]%Z in
  let lengths := length <$> sequences in
  Py.max lengths = Ok 3 ∧
  length sequences = 2 ∧
  Torch.shape (PadFunction.alloc self lengths 3) ≠ (3, 2) ∧
  data (PadFunction.alloc self lengths 3) = [[0; 0; 0]; [0; 0; 0]]%Z ∧
  PadFunction.merge self sequences None
  = Ok (mkTensor 2 3 [[1; 2; 3]; [4; 5; 0]]%Z, [3; 2]).
Proof. cbv zeta. repeat split; (reflexivity || discriminate). Qed.

(** C7, amended.  For [N >= 1] sequences [merge] allocates a grid of [N]
    rows by max-length columns, one row per sequence, every entry of which
    is the pad id; the copy loop then runs on that grid, and its result is
    what [merge] returns together with the lengths. *)
Theorem grid_is_N_by_length (self : PadFunction.t) (sequences : list (list Z)) :
  sequences ≠ [] →
  let lengths := length <$> sequences in
  let pad_size := max_list lengths in
  let grid := PadFunction.alloc self lengths pad_size in
  Py.max lengths = Ok pad_size ∧
  Torch.shape grid = (length sequences, pad_size) ∧
  data grid
  = replicate (length sequences) (replicate pad_size (PadFunction.pad_id self)) ∧
  (∀ i j, i < length sequences → j < pad_size →
     Torch.get grid i j = Some (PadFunction.pad_id self)) ∧
  PadFunction.merge self sequences None
  = (padded_seqs ← Py.for_each (PadFunction.copy_row lengths)
                     (Py.enumerate sequences) grid;
     Ok (padded_seqs, lengths)).
Proof.
  intros Hne lengths pad_size grid.
  assert (Py.max lengths = Ok pad_size) as Hmax.
  { apply py_max_nonempty. subst lengths. by destruct sequences. }
  split; [done|].
  subst grid. unfold PadFunction.alloc, Torch.full, Torch.shape, Torch.get.
  cbn [shape0 shape1 data]. subst lengths. rewrite length_fmap.
  split; [done|]. split; [done|]. split.
  - intros i j Hi Hj. rewrite lookup_replicate_2 by done. simpl.
    by apply lookup_replicate_2.
  - unfold PadFunction.merge. fold pad_size. rewrite Hmax, bind_Ok.
    unfold PadFunction.alloc, Torch.full. by rewrite length_fmap.
Qed.

Lemma grid_is_N_by_length_witness :
  Torch.shape (PadFunction.alloc (PadFunction.mk 0%Z)
                 (length <$> [[1; 2; 3]; [4; 5]]%Z) 3) = (2, 3).
Proof.
  destruct (grid_is_N_by_length (PadFunction.mk 0%Z) [[1; 2; 3]; [4; 5]]%Z
              ltac:(discriminate))
    as (_ & Hshape & _).
  exact Hshape.
Defined.

(** ** Slices of a tensor *)

Lemma get_drop_last_column {A} (t : Tensor A) (i j : nat) :
  Torch.wf t → j < shape1 t - 1 →
  Torch.get (Torch.drop_last_column t) i j = Torch.get t i j.
Proof.
  intros [_ Hrows] Hj. unfold Torch.get, Torch.drop_last_column. simpl.
  rewrite list_lookup_fmap. destruct (data t !! i) as [row|] eqn:Hi; [|done].
  simpl. unfold Py.slice_to_minus1.
  rewrite (Forall_lookup_1 _ _ _ _ Hrows Hi). by apply lookup_take_lt.
Qed.

Lemma get_drop_last_column_ge {A} (t : Tensor A) (i j : nat) :
  Torch.wf t → shape1 t - 1 ≤ j →
  Torch.get (Torch.drop_last_column t) i j = None.
Proof.
  intros [_ Hrows] Hj. unfold Torch.get, Torch.drop_last_column. simpl.
  rewrite list_lookup_fmap. destruct (data t !! i) as [row|] eqn:Hi; [|done].
  simpl. unfold Py.slice_to_minus1.
  rewrite (Forall_lookup_1 _ _ _ _ Hrows Hi). by apply lookup_take_ge.
Qed.

Lemma get_drop_first_column {A} (t : Tensor A) (i j : nat) :
  Torch.get (Torch.drop_first_column t) i j = Torch.get t i (S j).
Proof.
  unfold Torch.get, Torch.drop_first_column. simpl.
  rewrite list_lookup_fmap. destruct (data t !! i) as [row|]; [|done].
  simpl. by destruct row.
Qed.

Lemma drop_last_column_wf {A} (t : Tensor A) :
  Torch.wf t → Torch.wf (Torch.drop_last_column t).
Proof.
  intros [Hlen Hrows]. unfold Torch.wf, Torch.drop_last_column. simpl.
  rewrite length_fmap. split; [done|].
  apply Forall_fmap. eapply Forall_impl; [exact Hrows|].
  intros row Hrow. simpl in *. unfold Py.slice_to_minus1.
  rewrite length_take. lia.
Qed.

Lemma drop_first_column_wf {A} (t : Tensor A) :
  Torch.wf t → Torch.wf (Torch.drop_first_column t).
Proof.
  intros [Hlen Hrows]. unfold Torch.wf, Torch.drop_first_column. simpl.
  rewrite length_fmap. split; [done|].
  apply Forall_fmap. eapply Forall_impl; [exact Hrows|].
  intros row Hrow. simpl in *. destruct row; simpl in *; lia.
Qed.

Lemma map_last_wf {A B} (f : A → B) (t : Tensor A) :
  Torch.wf t → Torch.wf (Torch.map_last f t).
Proof.
  intros [Hlen Hrows]. unfold Torch.wf, Torch.map_last. simpl.
  rewrite length_fmap. split; [done|].
  apply Forall_fmap. eapply Forall_impl; [exact Hrows|].
  intros row Hrow. simpl. by rewrite length_fmap.
Qed.

Lemma length_concat_rows {A} (rows : list (list A)) (w : nat) :
  Forall (λ row, length row = w) rows → length (concat rows) = length rows * w.
Proof.
  induction 1 as [|row rows Hrow _ IH]; [done|].
  simpl. rewrite length_app, IH, Hrow. lia.
Qed.

Lemma length_view_flat {A} (t : Tensor A) :
  Torch.wf t → length (Torch.view_flat t) = shape0 t * shape1 t.
Proof.
  intros [Hlen Hrows]. unfold Torch.view_flat. rewrite <- Hlen.
  by apply length_concat_rows.
Qed.

(** ** The loss of a step *)

Lemma lookup_concat_rows {A} (rows : list (list A)) (w i j : nat) :
  Forall (λ row, length row = w) rows → j < w →
  concat rows !! (i * w + j) = row ← rows !! i; row !! j.
Proof.
  intros Hrows Hj. revert i. induction Hrows as [|row rows Hrow _ IH]; intros i.
  - done.
  - destruct i as [|i]; cbn [concat].
    + rewrite lookup_app_l by lia. done.
    + rewrite lookup_app_r by lia.
      replace (S i * w + j - length row) with (i * w + j) by lia. apply IH.
Qed.

Lemma lookup_view_flat {A} (t : Tensor A) (i j : nat) :
  Torch.wf t → j < shape1 t →
  Torch.view_flat t !! (i * shape1 t + j) = Torch.get t i j.
Proof. intros [_ Hrows] Hj. by apply lookup_concat_rows. Qed.

Lemma get_is_Some {A} (t : Tensor A) (i j : nat) :
  Torch.wf t → i < shape0 t → j < shape1 t → is_Some (Torch.get t i j).
Proof.
  intros [Hlen Hrows] Hi Hj. unfold Torch.get.
  destruct (lookup_lt_is_Some_2 (data t) i) as [row Hrow]; [lia|].
  rewrite Hrow. simpl. apply lookup_lt_is_Some.
  by rewrite (Forall_lookup_1 _ _ _ _ Hrows Hrow).
Qed.

Lemma get_map_last {A B} (f : A → B) (t : Tensor A) (i j : nat) :
  Torch.get (Torch.map_last f t) i j = f <$> Torch.get t i j.
Proof.
  unfold Torch.get, Torch.map_last. cbn [data]. rewrite list_lookup_fmap.
  destruct (data t !! i) as [row|]; [|done]. simpl. apply list_lookup_fmap.
Qed.

Section StepResults.
Context {Hidden LogitVec Term Loss : Type}.
Variable term : LogitVec → Z → Term.
Variable mean : list Term → Loss.
Variable self : BartForMaskedLM.t Hidden LogitVec.
Variables inputs labels : Tokens.

Let called : result (Tensor Hidden) :=
  BartForMaskedLM.transformer self (token_ids inputs) (mask inputs)
    (Torch.drop_last_column (token_ids labels))
    (Torch.drop_last_column (mask labels)).

(** An exception of the model call is the exception of the step. *)
Lemma steps_when_model_raises (batch_idx : nat) (e : exn) :
  called = Raise e →
  BartForMaskedLM.training_step term mean self (inputs, labels) batch_idx
  = Raise e ∧
  BartForMaskedLM.validation_step term mean self (inputs, labels) batch_idx
  = Raise e.
Proof.
  unfold called. intros Hcalled.
  unfold BartForMaskedLM.training_step, BartForMaskedLM.validation_step,
    BartForMaskedLM.forward.
  cbn [token_ids mask]. by rewrite Hcalled.
Qed.

(** When the model call returns, the loss is taken over the logits of the
    hidden states and the labels without their first column. *)
Lemma steps_when_model_returns (batch_idx : nat) (hidden : Tensor Hidden) :
  BartForMaskedLM.transformer_keeps_shape self →
  Torch.wf (token_ids labels) →
  called = Ok hidden →
  let pairs :=
    zip (Torch.view_flat (Torch.map_last (BartForMaskedLM.lm_head self) hidden))
        (Torch.view_flat (Torch.drop_first_column (token_ids labels))) in
  let loss :=
    mean ((λ p, term p.1 p.2) <$>
          filter (λ p, p.2 ≠ BartForMaskedLM.pad_token_id self) pairs) in
  Torch.wf hidden ∧
  Torch.shape hidden = (shape0 (token_ids labels), shape1 (token_ids labels) - 1) ∧
  length (Torch.view_flat (Torch.map_last (BartForMaskedLM.lm_head self) hidden))
  = length (Torch.view_flat (Torch.drop_first_column (token_ids labels))) ∧
  BartForMaskedLM.training_step term mean self (inputs, labels) batch_idx
  = Ok (loss, [("train_loss", loss)]) ∧
  BartForMaskedLM.validation_step term mean self (inputs, labels) batch_idx
  = Ok ((), [("val_loss", loss)]).
Proof.
  intros Hkeeps Hids Hcalled pairs loss. unfold called in Hcalled.
  destruct (Hkeeps _ _ _ _ _ (drop_last_column_wf _ Hids) Hcalled)
    as [Hhid Hshape].
  assert (length (Torch.view_flat
                    (Torch.map_last (BartForMaskedLM.lm_head self) hidden))
          = length (Torch.view_flat (Torch.drop_first_column (token_ids labels))))
    as Hlen.
  { rewrite !length_view_flat;
      [|by apply drop_first_column_wf|by apply map_last_wf].
    injection Hshape as Hh0 Hh1. simpl. by rewrite Hh0, Hh1. }
  split; [done|]. split; [done|]. split; [done|].
  unfold BartForMaskedLM.training_step, BartForMaskedLM.validation_step,
    BartForMaskedLM.forward.
  cbn [token_ids mask]. rewrite Hcalled, !bind_Ok.
  unfold BartForMaskedLM.CrossEntropyLoss. rewrite decide_True by exact Hlen.
  by rewrite !bind_Ok.
Qed.
End StepResults.

Lemma echo_raises_on_empty :
  BartForMaskedLM.transformer_raises_on_empty BartForMaskedLM.echo.
Proof.
  intros input_ids input_mask decoder_ids decoder_mask Hempty.
  unfold BartForMaskedLM.echo. simpl. by rewrite decide_True.
Qed.

Lemma echo_keeps_shape :
  BartForMaskedLM.transformer_keeps_shape BartForMaskedLM.echo.
Proof.
  intros input_ids input_mask decoder_ids decoder_mask hidden Hwf.
  unfold BartForMaskedLM.echo. simpl. case_decide; [done|].
  by intros [= <-].
Qed.

(** C6, as stated, fails at target width 1, which it includes.  The
    decoder input is then without columns, the model call raises, and so
    do the steps: no loss is computed.  Here on two targets of one token
    each; the same holds of every model that raises on an empty input. *)
Lemma steps_raise_at_width_one :
  let term := (λ x t : Z, (x - t)%Z) in
  let mean := foldr Z.add 0%Z in
  let inputs :=
    mkTokens (mkTensor 2 2 [[8; 9]; [8; 0]]%Z)
             (mkTensor 2 2 [[true; true]; [true; false]]) in
  let labels :=
    mkTokens (mkTensor 2 1 [[7]; [5]]%Z) (mkTensor 2 1 [[true]; [true]]) in
  Tokens_wf labels ∧
  1 ≤ shape1 (token_ids labels) ∧
  Torch.shape (Torch.drop_last_column (token_ids labels)) = (2, 0) ∧
  BartForMaskedLM.training_step term mean BartForMaskedLM.echo (inputs, labels) 0
  = Raise RuntimeError ∧
  BartForMaskedLM.validation_step term mean BartForMaskedLM.echo (inputs, labels) 0
  = Raise RuntimeError ∧
  ¬ (∀ self : BartForMaskedLM.t Z Z,
       BartForMaskedLM.transformer_raises_on_empty self →
       BartForMaskedLM.transformer_keeps_shape self →
       ∀ inputs labels : Tokens,
         Tokens_wf labels → 1 ≤ shape1 (token_ids labels) →
         returns (BartForMaskedLM.training_step term mean self (inputs, labels) 0)).
Proof.
  intros term mean inputs labels.
  assert (Tokens_wf labels) as Hwf.
  { unfold Tokens_wf, Torch.wf. simpl. repeat constructor. }
  split; [exact Hwf|]. split; [simpl; lia|]. split; [reflexivity|].
  split; [reflexivity|]. split; [reflexivity|].
  intros Hall.
  destruct (Hall BartForMaskedLM.echo echo_raises_on_empty echo_keeps_shape
              inputs labels Hwf ltac:(simpl; lia)) as [r Hr].
  discriminate Hr.
Qed.

Section StepLoss.
Context {Hidden LogitVec Term Loss : Type}.
Variable term : LogitVec → Z → Term.
Variable mean : list Term → Loss.
Variable self : BartForMaskedLM.t Hidden LogitVec.

(** C6, amended.  For a batch whose target has width at least 1, both
    steps call the model with the source ids and mask and, as decoder
    input, the target ids and mask without their last column.  If the
    call raises, the step raises the same exception; a model that raises
    on an input without columns does so at target width 1 and at source
    width 0.  If the call returns, one hidden state per decoder position,
    the loss of both steps is the average of the terms of the pairs kept:
    the pair at row [i], position [j] is the logits of hidden state
    [(i, j)] with target token [(i, j + 1)], and a pair is kept unless its
    label is the pad token id.  The training step returns and logs that
    loss, the validation step logs it. *)
Theorem steps_teacher_forced_loss (inputs labels : Tokens) (batch_idx : nat) :
  BartForMaskedLM.transformer_keeps_shape self →
  Tokens_wf labels →
  1 ≤ shape1 (token_ids labels) →
  let label_ids := token_ids labels in
  let label_mask := mask labels in
  let decoder_ids := Torch.drop_last_column label_ids in
  let decoder_mask := Torch.drop_last_column label_mask in
  let ignore_index := BartForMaskedLM.pad_token_id self in
  let n := shape0 label_ids in
  let w := shape1 label_ids in
  let called :=
    BartForMaskedLM.transformer self (token_ids inputs) (mask inputs)
      decoder_ids decoder_mask in
  let train :=
    BartForMaskedLM.training_step term mean self (inputs, labels) batch_idx in
  let validate :=
    BartForMaskedLM.validation_step term mean self (inputs, labels) batch_idx in
  (Torch.shape decoder_ids = (n, w - 1) ∧
   Torch.shape decoder_mask = (n, w - 1) ∧
   (∀ i j, j < w - 1 →
      Torch.get decoder_ids i j = Torch.get label_ids i j ∧
      Torch.get decoder_mask i j = Torch.get label_mask i j) ∧
   (∀ i j, w - 1 ≤ j →
      Torch.get decoder_ids i j = None ∧ Torch.get decoder_mask i j = None)) ∧
  (∀ e, called = Raise e → train = Raise e ∧ validate = Raise e) ∧
  (BartForMaskedLM.transformer_raises_on_empty self →
   w = 1 ∨ shape1 (token_ids inputs) = 0 →
   train = Raise RuntimeError ∧ validate = Raise RuntimeError) ∧
  (∀ hidden, called = Ok hidden →
     ∃ pairs : list (LogitVec * Z),
       let loss :=
         mean ((λ p, term p.1 p.2) <$> filter (λ p, p.2 ≠ ignore_index) pairs) in
       train = Ok (loss, [("train_loss", loss)]) ∧
       validate = Ok ((), [("val_loss", loss)]) ∧
       length pairs = n * (w - 1) ∧
       ∀ i j, i < n → j < w - 1 →
         ∃ h y,
           Torch.get hidden i j = Some h ∧
           Torch.get label_ids i (S j) = Some y ∧
           pairs !! (i * (w - 1) + j) = Some (BartForMaskedLM.lm_head self h, y)).
Proof.
  intros Hkeeps (Hids & Hmask & Hshape) Hw.
  intros label_ids label_mask decoder_ids decoder_mask ignore_index n w
    called train validate.
  injection Hshape as Hshape0 Hshape1.
  split; [|split; [|split]].
  - split; [done|]. split.
    { unfold Torch.shape, decoder_mask, label_mask, n, w, label_ids. simpl.
      by rewrite Hshape0, Hshape1. }
    split.
    + intros i j Hj. split; apply get_drop_last_column; try done.
      unfold w, label_ids, label_mask in *. lia.
    + intros i j Hj. split; apply get_drop_last_column_ge; try done.
      unfold w, label_ids, label_mask in *. lia.
  - intros e He. by apply steps_when_model_raises.
  - intros Hraises Hempty. apply steps_when_model_raises.
    apply Hraises. destruct Hempty as [Hone|Hsrc]; [right|by left].
    unfold w, label_ids in Hone. simpl. lia.
  - intros hidden Hcalled.
    destruct (steps_when_model_returns term mean self inputs labels batch_idx
                hidden Hkeeps Hids Hcalled)
      as (Hhid & Hhshape & Hlen & Htrain & Hval).
    injection Hhshape as Hh0 Hh1.
    pose proof (drop_first_column_wf _ Hids) as Hshift.
    pose proof (map_last_wf (BartForMaskedLM.lm_head self) _ Hhid) as Hlogits.
    eexists. split; [exact Htrain|]. split; [exact Hval|]. split.
    + rewrite length_zip_with, <- Hlen, Nat.min_id.
      rewrite length_view_flat by done. simpl. by rewrite Hh0, Hh1.
    + intros i j Hi Hj. unfold n, w, label_ids in *.
      destruct (get_is_Some hidden i j Hhid) as [h Hh]; [lia|lia|].
      destruct (get_is_Some (token_ids labels) i (S j) Hids) as [y Hy];
        [done|lia|].
      exists h, y. split; [done|]. split; [done|].
      apply lookup_zip_with_Some. exists (BartForMaskedLM.lm_head self h), y.
      split; [done|]. split.
      * rewrite <- Hh1.
        change (shape1 hidden)
          with (shape1 (Torch.map_last (BartForMaskedLM.lm_head self) hidden)).
        rewrite lookup_view_flat by (done || (simpl; lia)).
        by rewrite get_map_last, Hh.
      * change (shape1 (token_ids labels) - 1)
          with (shape1 (Torch.drop_first_column (token_ids labels))).
        rewrite lookup_view_flat by (done || (simpl; lia)).
        by rewrite get_drop_first_column.
Qed.
End StepLoss.

Lemma steps_teacher_forced_loss_witness :
  let term := (λ x t : Z, (x - t)%Z) in
  let mean := foldr Z.add 0%Z in
  let inputs :=
    mkTokens (mkTensor 2 2 [[8; 9]; [8; 0]]%Z)
             (mkTensor 2 2 [[true; true]; [true; false]]) in
  let labels :=
    mkTokens (mkTensor 2 3 [[1; 2; 3]; [4; 5; 0]]%Z)
             (mkTensor 2 3 [[true; true; true]; [true; true; false]]) in
  ∃ pairs : list (Z * Z),
    let loss := mean ((λ p, term p.1 p.2) <$> filter (λ p, p.2 ≠ 0%Z) pairs) in
    BartForMaskedLM.training_step term mean BartForMaskedLM.echo (inputs, labels) 0
    = Ok (loss, [("train_loss", loss)]) ∧
    BartForMaskedLM.validation_step term mean BartForMaskedLM.echo (inputs, labels) 0
    = Ok ((), [("val_loss", loss)]) ∧
    length pairs = 4.
Proof.
  intros term mean inputs labels.
  assert (Tokens_wf labels) as Hwf.
  { unfold Tokens_wf, Torch.wf. simpl. repeat constructor. }
  assert (1 ≤ shape1 (token_ids labels)) as Hw by (simpl; lia).
  destruct (steps_teacher_forced_loss term mean BartForMaskedLM.echo
              inputs labels 0 echo_keeps_shape Hwf Hw)
    as (_ & _ & _ & Hreturns).
  destruct (Hreturns (Torch.drop_last_column (token_ids labels)) eq_refl)
    as (pairs & Htrain & Hval & Hlen & _).
  exists pairs. split; [exact Htrain|]. split; [exact Hval|]. exact Hlen.
Defined.

(** ** [merge] with a given [pad_size] *)

(** X1.  With a [pad_size] that no sequence exceeds, [merge] returns: the
    grid has one row per sequence and [pad_size] columns, row [i] is the
    [i]-th sequence followed by pad ids, and the lengths come back in
    order.  This holds for no sequence at all too, where [max] is never
    called. *)
Theorem merge_pad_size_fits
    (self : PadFunction.t) (sequences : list (list Z)) (pad_size : nat) :
  Forall (λ s, length s ≤ pad_size) sequences →
  PadFunction.merge self sequences (Some pad_size)
  = Ok (mkTensor (length sequences) pad_size
          ((λ s, s ++ replicate (pad_size - length s) (PadFunction.pad_id self))
             <$> sequences),
        length <$> sequences).
Proof.
  intros Hfit. unfold PadFunction.merge. rewrite bind_Ok.
  unfold PadFunction.alloc, Torch.full, Py.enumerate. rewrite length_fmap.
  pose proof (copy_loop self pad_size (length <$> sequences)
                (length sequences) sequences [] 0) as Hloop.
  cbn [app] in Hloop. rewrite Hloop; [done|done| |done].
  intros i s Hi. rewrite Nat.add_0_l. by rewrite list_lookup_fmap, Hi.
Qed.

Lemma merge_pad_size_fits_witness :
  PadFunction.merge (PadFunction.mk 0%Z) [[1; 2]; []; [3]]%Z (Some 3)
  = Ok (mkTensor 3 3 [[1; 2; 0]; [0; 0; 0]; [3; 0; 0]]%Z, [2; 0; 1]).
Proof.
  apply (merge_pad_size_fits (PadFunction.mk 0%Z) [[1; 2]; []; [3]]%Z 3).
  repeat constructor.
Defined.

Lemma setitem_row_to_shape {A} (t t' : Tensor A) (i stop : nat) (vals : list A) :
  Torch.setitem_row_to t i stop vals = Ok t' →
  shape1 t' = shape1 t ∧ length (data t') = length (data t).
Proof.
  unfold Torch.setitem_row_to. intros H.
  destruct (data t !! i) as [row|]; [|done].
  case_decide.
  - injection H as <-. simpl. by rewrite length_insert.
  - destruct vals as [|v [|]]; try done.
    injection H as <-. simpl. by rewrite length_insert.
Qed.

Lemma copy_row_at (lengths : list nat) (t : Tensor Z) (k e : nat) (s : list Z) :
  lengths !! k = Some e →
  PadFunction.copy_row lengths t (k, s)
  = Torch.setitem_row_to t k e (Py.slice_to e s).
Proof. intros Hk. unfold PadFunction.copy_row. by rewrite Hk. Qed.

Lemma copy_loop_too_small (lengths : list nat) (width : nat)
    (todo : list (list Z)) (k : nat) (t : Tensor Z) :
  shape1 t = width →
  length (data t) = k + length todo →
  (∀ i s, todo !! i = Some s → lengths !! (k + i) = Some (length s)) →
  Exists (λ s, width < length s ∧ 2 ≤ length s) todo →
  Py.for_each (PadFunction.copy_row lengths) (Py.enumerate_from k todo) t
  = Raise RuntimeError.
Proof.
  revert k t. induction todo as [|s todo IH]; intros k t Hw Hrows Hl Hbad.
  - by apply Exists_nil in Hbad.
  - cbn [Py.enumerate_from Py.for_each].
    pose proof (Hl 0 s eq_refl) as Hk. rewrite Nat.add_0_r in Hk.
    rewrite (copy_row_at lengths t k (length s) s Hk).
    destruct (Torch.setitem_row_to t k (length s) (Py.slice_to (length s) s))
      as [t'|e] eqn:Hset.
    + rewrite bind_Ok.
      destruct (setitem_row_to_shape _ _ _ _ _ Hset) as [Hw' Hrows'].
      apply IH.
      * congruence.
      * rewrite Hrows', Hrows. simpl. lia.
      * intros i s' Hi. rewrite <- (Hl (S i) s' Hi). f_equal. lia.
      * apply Exists_cons in Hbad as [[Hlong Htwo]|Hbad]; [|done].
        exfalso. revert Hset. unfold Torch.setitem_row_to, Py.slice_to.
        destruct (data t !! k); [|done].
        rewrite firstn_all, decide_False by lia.
        destruct s as [|? [|? ?]]; simpl in Htwo; (done || lia).
    + revert Hset. unfold Torch.setitem_row_to, Py.slice_to.
      destruct (data t !! k) as [row|] eqn:Hrow.
      * case_decide; [done|]. by destruct s as [|? [|? ?]].
      * apply lookup_ge_None in Hrow. simpl in Hrows. lia.
Qed.

(** X2.  With a [pad_size] below the length of a sequence of two or more
    tokens, [merge] does not truncate: the row assignment of that
    sequence, or of one before it, raises [RuntimeError]. *)
Theorem merge_pad_size_too_small
    (self : PadFunction.t) (sequences : list (list Z)) (pad_size : nat) :
  Exists (λ s, pad_size < length s ∧ 2 ≤ length s) sequences →
  PadFunction.merge self sequences (Some pad_size) = Raise RuntimeError.
Proof.
  intros Hbad. unfold PadFunction.merge. rewrite bind_Ok.
  unfold Py.enumerate.
  rewrite (copy_loop_too_small (length <$> sequences) pad_size); try done.
  - unfold PadFunction.alloc, Torch.full. simpl.
    by rewrite length_replicate, length_fmap.
  - intros i s Hi. rewrite Nat.add_0_l. by rewrite list_lookup_fmap, Hi.
Qed.

Lemma merge_pad_size_too_small_witness :
  PadFunction.merge (PadFunction.mk 0%Z) [[1]; [1; 2; 3]]%Z (Some 2)
  = Raise RuntimeError.
Proof.
  apply (merge_pad_size_too_small (PadFunction.mk 0%Z) [[1]; [1; 2; 3]]%Z 2).
  apply Exists_cons_tl, Exists_cons_hd. simpl. lia.
Defined.

(** ** [make_mask] on its own *)

(** X3.  [make_mask] reads of its first argument the width only: whatever
    the ids are and however many rows they have, the mask has one row per
    length and that width, and entry [j] of row [i] tells whether [j] is
    below [inputs_length[i]].  A length above the width is no error, its
    row is [true] throughout. *)
Theorem make_mask_entries (inputs : Tensor Z) (inputs_length : list nat) :
  let m := PadFunction.make_mask inputs inputs_length in
  Torch.shape m = (length inputs_length, shape1 inputs) ∧
  Torch.wf m ∧
  (∀ i len j, inputs_length !! i = Some len → j < shape1 inputs →
     Torch.get m i j = Some (bool_decide (j < len))) ∧
  (∀ i len row, inputs_length !! i = Some len → shape1 inputs ≤ len →
     data m !! i = Some row → Forall (λ b, b = true) row) ∧
  (∀ inputs', shape1 inputs' = shape1 inputs →
     PadFunction.make_mask inputs' inputs_length = m).
Proof.
  unfold PadFunction.make_mask. cbv zeta. rewrite lt_column_expand.
  split; [done|]. split; [|split; [|split]].
  - unfold Torch.wf. simpl. rewrite length_fmap. split; [done|].
    apply Forall_fmap, Forall_forall. intros len _. simpl.
    apply (length_mask_row (shape1 inputs) len).
  - intros i len j Hi Hj. unfold Torch.get. simpl.
    rewrite list_lookup_fmap, Hi. simpl.
    by apply (lookup_mask_row (shape1 inputs) len j).
  - intros i len row Hi Hlen. simpl. rewrite list_lookup_fmap, Hi. simpl.
    intros [= <-]. apply Forall_fmap, Forall_forall. intros j Hj. simpl.
    apply elem_of_seq in Hj. apply bool_decide_eq_true. lia.
  - intros inputs' Hsame. rewrite lt_column_expand. by rewrite Hsame.
Qed.

(** ** Reading the sequences back *)

Lemma mask_row_split (w len : nat) :
  len ≤ w → mask_row w len = replicate len true ++ replicate (w - len) false.
Proof.
  intros Hle. apply list_eq. intros j. unfold mask_row.
  rewrite list_lookup_fmap.
  destruct (decide (j < w)) as [Hj|Hj].
  - rewrite lookup_seq_lt by done. simpl.
    destruct (decide (j < len)) as [Hlt|Hge].
    + rewrite bool_decide_eq_true_2 by done.
      rewrite lookup_app_l by (rewrite length_replicate; lia).
      symmetry. by apply lookup_replicate_2.
    + rewrite bool_decide_eq_false_2 by done.
      rewrite lookup_app_r by (rewrite length_replicate; lia).
      symmetry. apply lookup_replicate_2. rewrite length_replicate. lia.
  - rewrite lookup_seq_ge by lia. simpl. symmetry.
    apply lookup_ge_None. rewrite length_app, !length_replicate. lia.
Qed.

Lemma unpad_row_keeps (s : list Z) :
  unpad_row s (replicate (length s) true) = s.
Proof.
  unfold unpad_row. induction s as [|x s IH]; [done|].
  cbn [length replicate zip_with]. rewrite filter_cons_True by done.
  by rewrite fmap_cons, IH.
Qed.

Lemma unpad_row_drops (pad : Z) (k : nat) :
  unpad_row (replicate k pad) (replicate k false) = [].
Proof.
  unfold unpad_row. induction k as [|k IH]; [done|].
  cbn [replicate zip_with]. by rewrite filter_cons_False.
Qed.

Lemma unpad_row_padded (pad : Z) (w : nat) (s : list Z) :
  length s ≤ w → unpad_row (padded_row pad w s) (mask_row w (length s)) = s.
Proof.
  intros Hle. rewrite mask_row_split by done.
  pose proof (unpad_row_keeps s) as Hs.
  pose proof (unpad_row_drops pad (w - length s)) as Hp.
  unfold unpad_row, padded_row in *.
  rewrite zip_with_app by (by rewrite length_replicate).
  by rewrite filter_app, fmap_app, Hs, Hp, app_nil_r.
Qed.

Lemma unpad_collated (pad : Z) (seqs : list (list Z)) :
  unpad (collated pad seqs) = seqs.
Proof.
  unfold unpad, collated. cbn [token_ids mask data].
  rewrite zip_with_fmap_l, zip_with_fmap_r.
  assert (Forall (λ s, length s ≤ batch_width seqs) seqs) as Hle.
  { apply Forall_lookup. intros i s. apply length_le_batch_width. }
  revert Hle. generalize (batch_width seqs) as w. intros w Hle.
  induction Hle as [|s rest Hs _ IH]; [done|].
  cbn [zip_with]. rewrite IH. f_equal. by apply unpad_row_padded.
Qed.

(** X4.  Nothing is lost in collation: in each returned structure, the
    ids of a row at the positions its mask row marks are the sequence the
    row was made from, and the rows read back this way are the sequences
    of the batch in order. *)
Theorem unpad_after_collate
    (self : PadFunction.t) (batch : list (list Z * list Z)) :
  batch ≠ [] →
  ∃ src tgt,
    PadFunction.__call__ self batch = Ok (src, tgt) ∧
    unpad src = batch.*1 ∧ unpad tgt = batch.*2.
Proof.
  intros Hne. rewrite call_nonempty by done.
  eexists _, _. split; [done|]. by rewrite !unpad_collated.
Qed.

Lemma unpad_after_collate_witness :
  ∃ src tgt,
    PadFunction.__call__ (PadFunction.mk 0%Z) [([1; 0; 3], [7]); ([0; 5], [])]%Z
    = Ok (src, tgt) ∧
    unpad src = [[1; 0; 3]; [0; 5]]%Z ∧ unpad tgt = [[7]; []]%Z.
Proof.
  apply (unpad_after_collate
           (PadFunction.mk 0%Z) [([1; 0; 3], [7]); ([0; 5], [])]%Z).
  discriminate.
Defined.

(** ** Larger and reordered batches *)

Lemma batch_width_app (seqs more : list (list Z)) :
  batch_width (seqs ++ more) = batch_width seqs `max` batch_width more.
Proof.
  unfold batch_width. induction seqs as [|s seqs IH]; [done|].
  change (max_list (length <$> (s :: seqs) ++ more))
    with (length s `max` max_list (length <$> seqs ++ more)).
  change (max_list (length <$> s :: seqs))
    with (length s `max` max_list (length <$> seqs)).
  rewrite IH. lia.
Qed.

Lemma padded_row_wider (pad : Z) (w w' : nat) (s : list Z) :
  length s ≤ w → w ≤ w' →
  padded_row pad w' s = padded_row pad w s ++ replicate (w' - w) pad.
Proof.
  intros Hs Hw. unfold padded_row.
  rewrite <- app_assoc, <- replicate_add. do 2 f_equal. lia.
Qed.

Lemma mask_row_wider (w w' len : nat) :
  len ≤ w → w ≤ w' →
  mask_row w' len = mask_row w len ++ replicate (w' - w) false.
Proof.
  intros Hs Hw. rewrite !mask_row_split by lia.
  rewrite <- app_assoc, <- replicate_add. do 2 f_equal. lia.
Qed.

Lemma collated_app_row (pad : Z) (seqs more : list (list Z)) (i : nat)
    (row : list Z) (mrow : list bool) :
  let w := batch_width seqs in
  let w' := batch_width (seqs ++ more) in
  data (token_ids (collated pad seqs)) !! i = Some row →
  data (mask (collated pad seqs)) !! i = Some mrow →
  w ≤ w' ∧
  data (token_ids (collated pad (seqs ++ more))) !! i
  = Some (row ++ replicate (w' - w) pad) ∧
  data (mask (collated pad (seqs ++ more))) !! i
  = Some (mrow ++ replicate (w' - w) false).
Proof.
  intros w w'. unfold collated. cbn [token_ids mask data].
  rewrite !list_lookup_fmap.
  destruct (seqs !! i) as [s|] eqn:Hi; [|done]. simpl.
  intros [= <-] [= <-].
  assert (w ≤ w') as Hw by (unfold w, w'; rewrite batch_width_app; lia).
  pose proof (length_le_batch_width _ _ _ Hi) as Hs.
  rewrite (lookup_app_l_Some _ _ _ _ Hi). simpl.
  split; [done|]. fold w w'.
  by rewrite (padded_row_wider pad w w'), (mask_row_wider w w').
Qed.

(** X5.  Adding examples to a batch leaves what the rows of the earlier
    examples hold in place: each side gets at least as wide, and every
    earlier row of ids is the old row followed by pad ids only, its mask
    row the old one followed by [false] only. *)
Theorem earlier_rows_grow_by_padding
    (self : PadFunction.t) (batch more : list (list Z * list Z)) :
  batch ≠ [] →
  ∃ src tgt src' tgt',
    PadFunction.__call__ self batch = Ok (src, tgt) ∧
    PadFunction.__call__ self (batch ++ more) = Ok (src', tgt') ∧
    (∀ side side', (side, side') = (src, src') ∨ (side, side') = (tgt, tgt') →
       let k := shape1 (token_ids side') - shape1 (token_ids side) in
       shape1 (token_ids side) ≤ shape1 (token_ids side') ∧
       ∀ i row mrow,
         data (token_ids side) !! i = Some row →
         data (mask side) !! i = Some mrow →
         data (token_ids side') !! i
         = Some (row ++ replicate k (PadFunction.pad_id self)) ∧
         data (mask side') !! i = Some (mrow ++ replicate k false)).
Proof.
  intros Hne. rewrite !call_nonempty by (by destruct batch).
  eexists _, _, _, _. split; [done|]. split; [done|].
  rewrite !fmap_app.
  intros side side' [[= -> ->]|[= -> ->]]; cbv zeta.
  - split.
    + simpl. rewrite batch_width_app. lia.
    + intros i row mrow Hrow Hmrow.
      by destruct (collated_app_row _ _ (more.*1) _ _ _ Hrow Hmrow) as (_ & ? & ?).
  - split.
    + simpl. rewrite batch_width_app. lia.
    + intros i row mrow Hrow Hmrow.
      by destruct (collated_app_row _ _ (more.*2) _ _ _ Hrow Hmrow) as (_ & ? & ?).
Qed.

Lemma earlier_rows_grow_by_padding_witness :
  ∃ src tgt src' tgt',
    PadFunction.__call__ (PadFunction.mk 0%Z) [([4; 5], [6])]%Z = Ok (src, tgt) ∧
    PadFunction.__call__ (PadFunction.mk 0%Z)
      ([([4; 5], [6])] ++ [([1; 2; 3], [])])%Z = Ok (src', tgt') ∧
    shape1 (token_ids src) ≤ shape1 (token_ids src').
Proof.
  destruct (earlier_rows_grow_by_padding (PadFunction.mk 0%Z)
              [([4; 5], [6])]%Z [([1; 2; 3], [])]%Z ltac:(discriminate))
    as (src & tgt & src' & tgt' & Hcall & Hcall' & Hrows).
  exists src, tgt, src', tgt'. split; [exact Hcall|]. split; [exact Hcall'|].
  apply (Hrows src src'). by left.
Defined.

Lemma aligned_rows_collated (pad : Z) (group : list (list Z * list Z)) :
  aligned_rows (collated pad group.*1, collated pad group.*2)
  = (λ ex,
       ((padded_row pad (batch_width group.*1) ex.1,
         mask_row (batch_width group.*1) (length ex.1)),
        (padded_row pad (batch_width group.*2) ex.2,
         mask_row (batch_width group.*2) (length ex.2)))) <$> group.
Proof.
  unfold aligned_rows, collated. cbn [fst snd token_ids mask data].
  generalize (batch_width group.*1) as w1, (batch_width group.*2) as w2.
  intros w1 w2. induction group as [|ex group IH]; [done|].
  rewrite !fmap_cons. cbn [zip_with]. by rewrite IH.
Qed.

Lemma zip_fmap_same {A B} (f : A → B) (l : list A) :
  zip l (f <$> l) = (λ x, (x, f x)) <$> l.
Proof.
  induction l as [|x l IH]; [done|].
  rewrite !fmap_cons. cbn [zip_with]. by rewrite IH.
Qed.

(** X6.  The order of the examples decides the order of the rows and
    nothing else.  A reordered batch gets tensors of the same four
    shapes, and every example keeps its rows: the examples taken with
    their rows (source ids, source mask, target ids, target mask, side by
    side) are the same before and after, reordered as the batch is. *)
Theorem reordered_batch_reorders_rows
    (self : PadFunction.t) (batch batch' : list (list Z * list Z)) :
  batch ≠ [] →
  batch ≡ₚ batch' →
  ∃ src tgt src' tgt',
    PadFunction.__call__ self batch = Ok (src, tgt) ∧
    PadFunction.__call__ self batch' = Ok (src', tgt') ∧
    Torch.shape (token_ids src') = Torch.shape (token_ids src) ∧
    Torch.shape (mask src') = Torch.shape (mask src) ∧
    Torch.shape (token_ids tgt') = Torch.shape (token_ids tgt) ∧
    Torch.shape (mask tgt') = Torch.shape (mask tgt) ∧
    length (aligned_rows (src, tgt)) = length batch ∧
    length (aligned_rows (src', tgt')) = length batch' ∧
    zip batch (aligned_rows (src, tgt)) ≡ₚ zip batch' (aligned_rows (src', tgt')).
Proof.
  intros Hne Hperm.
  assert (batch' ≠ []) as Hne'.
  { intros ->. by apply Permutation_nil_r in Hperm. }
  rewrite !call_nonempty by done.
  eexists _, _, _, _. split; [done|]. split; [done|].
  assert (batch.*1 ≡ₚ batch'.*1) as H1 by by apply fmap_Permutation.
  assert (batch.*2 ≡ₚ batch'.*2) as H2 by by apply fmap_Permutation.
  assert (batch_width batch'.*1 = batch_width batch.*1) as Hw1.
  { unfold batch_width. by rewrite H1. }
  assert (batch_width batch'.*2 = batch_width batch.*2) as Hw2.
  { unfold batch_width. by rewrite H2. }
  rewrite !aligned_rows_collated, !zip_fmap_same, !length_fmap, Hw1, Hw2.
  unfold collated, Torch.shape. cbn [token_ids mask shape0 shape1].
  rewrite Hw1, Hw2, !length_fmap, (Permutation_length Hperm).
  do 6 (split; [done|]). by apply fmap_Permutation.
Qed.

Lemma reordered_batch_reorders_rows_witness :
  ∃ src tgt src' tgt',
    PadFunction.__call__ (PadFunction.mk 0%Z)
      [([1; 2; 3], [7]); ([4; 5], [])]%Z = Ok (src, tgt) ∧
    PadFunction.__call__ (PadFunction.mk 0%Z)
      [([4; 5], []); ([1; 2; 3], [7])]%Z = Ok (src', tgt') ∧
    zip [([1; 2; 3], [7]); ([4; 5], [])]%Z (aligned_rows (src, tgt))
    ≡ₚ zip [([4; 5], []); ([1; 2; 3], [7])]%Z (aligned_rows (src', tgt')).
Proof.
  destruct (reordered_batch_reorders_rows (PadFunction.mk 0%Z)
              [([1; 2; 3], [7]); ([4; 5], [])]%Z
              [([4; 5], []); ([1; 2; 3], [7])]%Z
              ltac:(discriminate) ltac:(apply perm_swap))
    as (src & tgt & src' & tgt' & Hcall & Hcall' & _ & _ & _ & _ & _ & _ & Hrows).
  exists src, tgt, src', tgt'. split; [exact Hcall|]. split; [exact Hcall'|].
  exact Hrows.
Defined.

(** ** From the collator to the loss *)







Section CollateThenStep.
Context {Hidden LogitVec Term Loss : Type}.
Variable term : LogitVec → Z → Term.
Variable mean : list Term → Loss.
Variable self : BartForMaskedLM.t Hidden LogitVec.

End CollateThenStep.


(** ** The batch sampler *)

Lemma batch_sampler_spec (batch_size : nat) (sampler batch : list nat) :
  length batch < batch_size →
  let chunks := DataLoader.batch_sampler batch_size sampler batch in
  let total := length batch + length sampler in
  concat chunks = batch ++ sampler ∧
  Forall (λ c, 1 ≤ length c ≤ batch_size) chunks ∧
  (∀ i c, chunks !! i = Some c → S i < length chunks → length c = batch_size) ∧
  total ≤ batch_size * length chunks ∧
  (total = 0 ∧ chunks = [] ∨ batch_size * (length chunks - 1) < total).
Proof.
  revert batch. induction sampler as [|idx rest IH]; intros batch Hlt; cbv zeta.
  - destruct batch as [|a batch]; cbn [DataLoader.batch_sampler].
    + split; [done|]. split; [constructor|]. split; [by intros ? ? ?|].
      simpl. split; [lia|by left].
    + split; [done|]. split.
      { constructor; [simpl in *; lia|constructor]. }
      split; [intros [|i] c; simpl; intros; lia|].
      simpl in *. split; [lia|right; lia].
  - cbn [DataLoader.batch_sampler]. case_decide as Hfull.
    + destruct (IH [] ltac:(simpl; lia)) as (Hcat & Hall & Hlast & Hup & Hlow).
      cbn [concat]. rewrite Hcat. split; [by rewrite <- app_assoc|]. split.
      { constructor; [lia|done]. }
      split.
      { intros [|i] c Hc Hi.
        - by injection Hc as <-.
        - apply (Hlast i c Hc). simpl in Hi. lia. }
      rewrite length_app in Hfull. simpl in *. split; [nia|].
      right. destruct Hlow as [[? ->]|Hlow]; [simpl; lia|]. nia.
    + rewrite length_app in Hfull. simpl in Hfull.
      destruct (IH (batch ++ [idx])) as (Hcat & Hall & Hlast & Hup & Hlow).
      { rewrite length_app. simpl. lia. }
      rewrite Hcat, <- app_assoc. split; [done|]. split; [done|].
      split; [done|]. rewrite length_app in Hup, Hlow. simpl in *.
      split; [lia|]. right. destruct Hlow as [[? _]|Hlow]; lia.
Qed.

Lemma Forall_concat_inv {A} (P : A → Prop) (chunks : list (list A)) :
  Forall P (concat chunks) → Forall (Forall P) chunks.
Proof.
  induction chunks as [|c chunks IH]; [constructor|].
  simpl. intros [Hc Hrest]%Forall_app. constructor; [done|by apply IH].
Qed.

Lemma pick_app {A} (dataset : list A) (b1 b2 : list nat) :
  pick dataset (b1 ++ b2) = pick dataset b1 ++ pick dataset b2.
Proof.
  unfold pick. apply omap_app.
Qed.

Lemma pick_concat {A} (dataset : list A) (chunks : list (list nat)) :
  concat (pick dataset <$> chunks) = pick dataset (concat chunks).
Proof.
  induction chunks as [|c chunks IH]; [done|].
  rewrite fmap_cons. cbn [concat]. by rewrite pick_app, IH.
Qed.

Lemma pick_in_range {A} (dataset : list A) (batch : list nat) :
  Forall (λ idx, idx < length dataset) batch →
  Forall2 (λ idx ex, dataset !! idx = Some ex) batch (pick dataset batch).
Proof.
  unfold pick. induction 1 as [|idx batch Hidx _ IH]; [constructor|].
  apply lookup_lt_is_Some in Hidx as [ex Hex].
  cbn [omap list_omap]. rewrite Hex. by constructor.
Qed.

Lemma pick_all {A} (dataset : list A) :
  pick dataset (seq 0 (length dataset)) = dataset.
Proof.
  assert (∀ pre, pick (pre ++ dataset) (seq (length pre) (length dataset))
                 = dataset) as Hgen.
  { induction dataset as [|x dataset IH]; intros pre; [done|].
    unfold pick. cbn [length seq omap list_omap].
    rewrite list_lookup_middle by done. f_equal.
    specialize (IH (pre ++ [x])). rewrite <- app_assoc, length_app in IH.
    simpl in IH. rewrite Nat.add_1_r in IH. exact IH. }
  apply (Hgen []).
Qed.

Lemma fetch_in_range {A} (dataset : list A) (batch : list nat) :
  Forall (λ idx, idx < length dataset) batch →
  DataLoader.fetch dataset batch = Ok (pick dataset batch).
Proof.
  unfold pick. induction 1 as [|idx batch Hidx _ IH]; [done|].
  apply lookup_lt_is_Some in Hidx as [ex Hex].
  cbn [DataLoader.fetch omap list_omap]. rewrite Hex, IH. done.
Qed.

(** ** A pass over a loader *)

Lemma read_back_collated (pad : Z) (group : list (list Z * list Z)) :
  read_back (collated pad group.*1, collated pad group.*2) = group.
Proof.
  unfold read_back. cbn [fst snd]. rewrite !unpad_collated. apply zip_fst_snd.
Qed.

Lemma loader_pass (dataset : list (list Z * list Z)) (pad : Z)
    (sampler : list nat) (batch_size : nat) :
  1 ≤ batch_size →
  Forall (λ idx, idx < length dataset) sampler →
  ∃ delivered : list (Tokens * Tokens),
    DataLoader.batches dataset batch_size
      (PadFunction.__call__ (PadFunction.mk pad)) sampler = Ok <$> delivered ∧
    concat (read_back <$> delivered) = pick dataset sampler ∧
    Forall (λ b, 1 ≤ shape0 (token_ids b.1) ≤ batch_size ∧
                 Torch.shape (token_ids b.2)
                 = (shape0 (token_ids b.1), batch_width (read_back b).*2) ∧
                 Torch.shape (token_ids b.1)
                 = (shape0 (token_ids b.1), batch_width (read_back b).*1))
      delivered ∧
    (∀ i b, delivered !! i = Some b → S i < length delivered →
            shape0 (token_ids b.1) = batch_size) ∧
    length sampler ≤ batch_size * length delivered ∧
    (length sampler = 0 ∧ delivered = [] ∨
     batch_size * (length delivered - 1) < length sampler).
Proof.
  intros Hbs Hrange.
  destruct (batch_sampler_spec batch_size sampler [] ltac:(simpl; lia))
    as (Hcat & Hsizes & Hfull & Hup & Hlow).
  cbn [app length Nat.add] in Hcat, Hup, Hlow.
  set (chunks := DataLoader.batch_sampler batch_size sampler []) in *.
  assert (Forall (Forall (λ idx, idx < length dataset)) chunks) as Hchunks.
  { apply Forall_concat_inv. by rewrite Hcat. }
  set (collate := λ c : list nat,
         (collated pad (pick dataset c).*1, collated pad (pick dataset c).*2)).
  assert (∀ c, c ∈ chunks → length (pick dataset c) = length c) as Hpick.
  { intros c Hc. symmetry. eapply Forall2_length, pick_in_range.
    by eapply Forall_forall in Hchunks. }
  exists (collate <$> chunks). split; [|split; [|split; [|split; [|split]]]].
  - unfold DataLoader.batches. fold chunks. rewrite <- list_fmap_compose.
    apply Forall_fmap_ext, Forall_forall. intros c Hc. simpl.
    rewrite fetch_in_range by (by eapply Forall_forall in Hchunks).
    rewrite bind_Ok. apply call_nonempty.
    eapply Forall_forall in Hsizes; [|exact Hc].
    specialize (Hpick c Hc). destruct (pick dataset c); [simpl in *; lia|done].
  - rewrite <- list_fmap_compose, <- Hcat, <- pick_concat. f_equal.
    apply list_fmap_ext. intros i c _. simpl. apply read_back_collated.
  - apply Forall_fmap, Forall_forall. intros c Hc. unfold compose, collate.
    rewrite read_back_collated. cbn [fst snd].
    unfold collated, Torch.shape. cbn [token_ids shape0 shape1].
    rewrite !length_fmap, (Hpick c Hc).
    eapply Forall_forall in Hsizes; [|exact Hc]. done.
  - intros i b Hb Hi. rewrite list_lookup_fmap in Hb.
    destruct (chunks !! i) as [c|] eqn:Hc; [|done]. injection Hb as <-.
    unfold collate, collated. cbn [fst token_ids shape0].
    rewrite length_fmap, Hpick by (by eapply list_elem_of_lookup_2).
    apply (Hfull i c Hc). by rewrite length_fmap in Hi.
  - by rewrite length_fmap.
  - rewrite length_fmap. destruct Hlow as [[? ->]|?]; [by left|by right].
Qed.

(** X8.  A pass over the validation loader raises nowhere and delivers the
    data set: read back, the batches one after another hold the examples
    of the data set, each once and in order.  An empty data set gives no
    batch, so the collator never meets an empty batch. *)
Theorem val_dataloader_delivers_dataset {Hidden LogitVec : Type}
    (self : BartForMaskedLM.t Hidden LogitVec)
    (valid_dataset : list (list Z * list Z)) :
  ∃ delivered : list (Tokens * Tokens),
    Loaders.val_dataloader self valid_dataset = Ok <$> delivered ∧
    concat (read_back <$> delivered) = valid_dataset ∧
    (valid_dataset = [] → delivered = []).
Proof.
  unfold Loaders.val_dataloader, DataLoader.SequentialSampler.
  destruct (loader_pass valid_dataset (BartForMaskedLM.pad_token_id self)
              (seq 0 (length valid_dataset)) (Loaders.batch_size self))
    as (delivered & Hpass & Hback & _ & _ & Hup & Hlow).
  { unfold Loaders.batch_size. lia. }
  { apply Forall_forall. intros idx Hidx. apply elem_of_seq in Hidx. lia. }
  exists delivered. split; [exact Hpass|]. split.
  - by rewrite Hback, pick_all.
  - intros ->. destruct Hlow as [[_ ?]|Hlow]; [done|]. simpl in Hlow. lia.
Qed.

(** X9.  The validation batches have 8 examples each, but for the last,
    which has between 1 and 8; for [n] examples there are [n / 8] of them
    rounded up.  Source and target of a batch have as many rows, each
    side as wide as its own longest sequence in that batch. *)
Theorem val_dataloader_batch_sizes {Hidden LogitVec : Type}
    (self : BartForMaskedLM.t Hidden LogitVec)
    (valid_dataset : list (list Z * list Z)) :
  ∃ delivered : list (Tokens * Tokens),
    Loaders.val_dataloader self valid_dataset = Ok <$> delivered ∧
    length delivered = (length valid_dataset + 7) / 8 ∧
    (∀ i b, delivered !! i = Some b →
       1 ≤ shape0 (token_ids b.1) ≤ 8 ∧
       (S i < length delivered → shape0 (token_ids b.1) = 8) ∧
       Torch.shape (token_ids b.1)
       = (shape0 (token_ids b.1), batch_width (read_back b).*1) ∧
       Torch.shape (token_ids b.2)
       = (shape0 (token_ids b.1), batch_width (read_back b).*2)).
Proof.
  unfold Loaders.val_dataloader, DataLoader.SequentialSampler.
  destruct (loader_pass valid_dataset (BartForMaskedLM.pad_token_id self)
              (seq 0 (length valid_dataset)) (Loaders.batch_size self))
    as (delivered & Hpass & _ & Hsizes & Hfull & Hup & Hlow).
  { unfold Loaders.batch_size. lia. }
  { apply Forall_forall. intros idx Hidx. apply elem_of_seq in Hidx. lia. }
  exists delivered. split; [exact Hpass|].
  unfold Loaders.batch_size in *. rewrite length_seq in Hup, Hlow. split.
  - destruct Hlow as [[Hn ->]|Hlow]; [by rewrite Hn|].
    apply (Nat.div_unique _ 8 _
             (length valid_dataset + 7 - 8 * length delivered)); lia.
  - intros i b Hb.
    pose proof (Forall_lookup_1 _ _ _ _ Hsizes Hb) as (Hrows & Htgt & Hsrc).
    split; [exact Hrows|]. split; [by apply Hfull|]. done.
Qed.

Section TrainLoader.
Context {Hidden LogitVec : Type}.
Variable self : BartForMaskedLM.t Hidden LogitVec.
Variables ai_challenger_2017_dataset minecraft_dataset translation2019zh_dataset
  MultiUN_en_zh_dataset umcorpus_dataset news_commentary_dataset
  ted_dataset : list (list Z * list Z).

Let dataset : list (list Z * list Z) :=
  DataLoader.ConcatDataset
    [ai_challenger_2017_dataset; minecraft_dataset; translation2019zh_dataset;
     MultiUN_en_zh_dataset; umcorpus_dataset; news_commentary_dataset;
     ted_dataset].

(** X10.  With fewer than 100 examples in the seven corpora together the
    number of samples of an epoch, a hundredth of them rounded down, is 0,
    and making the training loader raises [ValueError] in the sampler. *)
Theorem train_dataloader_too_few_examples (draws : list nat) :
  length dataset < 100 →
  Loaders.train_dataloader self
    ai_challenger_2017_dataset minecraft_dataset translation2019zh_dataset
    MultiUN_en_zh_dataset umcorpus_dataset news_commentary_dataset ted_dataset
    draws
  = Raise ValueError.
Proof.
  intros Hfew. unfold Loaders.train_dataloader. fold dataset.
  unfold DataLoader.RandomSampler.
  rewrite decide_True; [done|]. by apply Nat.div_small.
Qed.

End TrainLoader.

Lemma train_dataloader_too_few_examples_witness :
  Loaders.train_dataloader BartForMaskedLM.echo
    [([1; 2], [3])]%Z [] [] [] [] [] [([4], [5; 6])]%Z [0]
  = Raise ValueError.
Proof.
  apply (train_dataloader_too_few_examples _
           [([1; 2], [3])]%Z [] [] [] [] [] [([4], [5; 6])]%Z [0]).
  simpl. lia.
Defined.


(** ** Decoder inputs and labels of a collated batch *)

Lemma padded_row_within (pad : Z) (w j : nat) (s : list Z) :
  j < length s → padded_row pad w s !! j = s !! j.
Proof. intros Hj. unfold padded_row. by apply lookup_app_l. Qed.

(** X12.  On a collated batch the slices of the steps pair every target
    token with its successor: at row [i], position [j], the decoder reads
    token [j] of the [i]-th target, marked real by the mask, and the label
    is token [j + 1], as long as there is one; from there to the width the
    label is the pad id. *)
Theorem collated_targets_pair_with_next_token
    (self : PadFunction.t) (batch : list (list Z * list Z)) :
  batch ≠ [] →
  ∃ src tgt,
    PadFunction.__call__ self batch = Ok (src, tgt) ∧
    ∀ i s t j, batch !! i = Some (s, t) →
      (S j < length t →
       Torch.get (Torch.drop_last_column (token_ids tgt)) i j = t !! j ∧
       Torch.get (Torch.drop_last_column (mask tgt)) i j = Some true ∧
       Torch.get (Torch.drop_first_column (token_ids tgt)) i j = t !! S j) ∧
      (length t ≤ S j < shape1 (token_ids tgt) →
       Torch.get (Torch.drop_first_column (token_ids tgt)) i j
       = Some (PadFunction.pad_id self)).
Proof.
  intros Hne. rewrite call_nonempty by done.
  eexists _, _. split; [done|].
  intros i s t j Hi. apply lookup_side in Hi as [_ Ht].
  destruct (collated_wf (PadFunction.pad_id self) batch.*2) as (Hids & Hmask & _).
  pose proof (length_le_batch_width _ _ _ Ht) as Hle.
  rewrite get_drop_first_column. split.
  - intros Hj.
    rewrite !get_drop_last_column by (done || (simpl; lia)).
    rewrite !(get_token_ids_collated _ _ _ _ t Ht).
    rewrite !padded_row_within by lia.
    split; [done|]. split; [|done].
    apply (mask_collated_true _ _ _ _ t Ht). lia.
  - intros Hj. rewrite (get_token_ids_collated _ _ _ _ t Ht).
    by apply padded_row_beyond.
Qed.

Lemma collated_targets_pair_with_next_token_witness :
  ∃ src tgt,
    PadFunction.__call__ (PadFunction.mk 0%Z)
      [([8; 9], [1; 2; 3]); ([8], [4; 5])]%Z = Ok (src, tgt) ∧
    Torch.get (Torch.drop_last_column (token_ids tgt)) 1 0 = Some 4%Z ∧
    Torch.get (Torch.drop_first_column (token_ids tgt)) 1 0 = Some 5%Z.
Proof.
  destruct (collated_targets_pair_with_next_token (PadFunction.mk 0%Z)
              [([8; 9], [1; 2; 3]); ([8], [4; 5])]%Z ltac:(discriminate))
    as (src & tgt & Hcall & Hpairs).
  exists src, tgt. split; [exact Hcall|].
  destruct (Hpairs 1 [8]%Z [4; 5]%Z 0 eq_refl) as [Hnext _].
  destruct (Hnext ltac:(simpl; lia)) as (Hin & _ & Hlabel).
  split; [exact Hin | exact Hlabel].
Defined.
